(** * System monitor (Go + Templ + HTMX): registry, fan-out and metric collection

    A shallow embedding of the Go program: the [handlers] package (metric
    collection) and the [main] package (subscriber registry, non-blocking
    fan-out, per-connection write loop, periodic publisher).

    Conventions of the embedding.
    - A Go [uint64] is a [Z]; every arithmetic operation writes its
      wrap-around modulo 2^64 out.
    - A Go [float64] is a primitive binary64 [float].
    - A Go result pair (pointer, error) is a pair of options: [None] is [nil].
    - A Go pointer [*Subscriber] is a location [loc]; the objects the
      pointers refer to live in a store [objects].
    - A buffered channel is its queue, its capacity and its closed flag.
    - A run-time panic is the [Panic] outcome of the [Result] monad.
    - Printing and sleeping leave the state alone and are left out; the
      totals that the registry prints are [call_total]. *)

From Stdlib Require Import ZArith Floats.
From stdpp Require Import base gmap sets list strings.

#[local] Set Warnings "-clear-no-such-hyp".
Local Open Scope Z_scope.

(** ** Panics as an error monad *)

Inductive PanicKind :=
  | NilDereference        (* invalid memory address or nil pointer dereference *)
  | IndexOutOfRange       (* index out of range *)
  | SendOnClosedChannel   (* send on closed channel *)
  | CloseOfClosedChannel. (* close of closed channel *)

Inductive Result (A : Type) :=
  | Ok (a : A)
  | Panic (p : PanicKind).
Arguments Ok {A} a.
Arguments Panic {A} p.

#[global] Instance Result_ret : MRet Result := λ A a, Ok a.
#[global] Instance Result_bind : MBind Result := λ A B f r,
  match r with
  | Ok a => f a
  | Panic p => Panic p
  end.

(** [p.f] on a pointer [p]. *)
Definition deref {A} (p : option A) : Result A :=
  match p with
  | Some a => Ok a
  | None => Panic NilDereference
  end.

(** [l[i]] on a slice [l]. *)
Definition index {A} (l : list A) (i : nat) : Result A :=
  match l !! i with
  | Some a => Ok a
  | None => Panic IndexOutOfRange
  end.

(** A Go [error] value is represented by its message. *)
Abbreviation error := string (only parsing).

(** ** The gopsutil structures the handlers read *)

Module mem.
Record VirtualMemoryStat := mkVirtualMemoryStat {
  Total : Z;
  Free : Z;
  UsedPercent : float
}.
End mem.

Module host.
Record InfoStat := mkInfoStat {
  Platform : string;
  Hostname : string;
  Procs : Z
}.
End host.

Module disk.
Record UsageStat := mkUsageStat {
  Total : Z;
  Used : Z;
  Free : Z;
  UsedPercent : float
}.
End disk.

Module cpu.
Record InfoStat := mkInfoStat {
  ModelName : string;
  Family : string;
  Mhz : float
}.
End cpu.

(** ** Package handlers *)

Module handlers.

(** The values of type uint64. *)
Definition u64 (z : Z) : Prop := 0 ≤ z < 2 ^ 64.

Definition wrap64 (z : Z) : Z := z mod 2 ^ 64.

Definition mul64 (a b : Z) : Z := wrap64 (a * b).

(** Unsigned division; the divisors of this package are non-zero constants. *)
Definition div64 (a b : Z) : Z := wrap64 (a / b).

Definition megabyteDiv : Z := mul64 1024 1024.
Definition gigabyteDiv : Z := mul64 megabyteDiv 1024.

Module SystemInfo.
Record t := mk {
  OS : string;
  Platform : string;
  Hostname : string;
  Procs : Z;
  TotalMem : Z;
  FreeMem : Z;
  UsedPercent : float
}.
End SystemInfo.

Module DiskInfo.
Record t := mk {
  Total : Z;
  Used : Z;
  Free : Z;
  UsedPercent : float
}.
End DiskInfo.

Module CPUInfo.
Record t := mk {
  ModelName : string;
  Family : string;
  Mhz : float;
  Percentages : list float
}.
End CPUInfo.

(** [GetSystemInfo]: [runTimeOS] is [runtime.GOOS]; [VirtualMemory] and
    [Info] are what [mem.VirtualMemory()] and [host.Info()] return. *)
Definition GetSystemInfo (runTimeOS : string)
    (VirtualMemory : option mem.VirtualMemoryStat * option error)
    (Info : option host.InfoStat * option error)
    : Result (option SystemInfo.t * option error) :=
  let '(vmStat, err) := VirtualMemory in
  match err with
  | Some e => Ok (None, Some e)
  | None =>
    let '(hostStat, err) := Info in
    match err with
    | Some e => Ok (None, Some e)
    | None =>
      h ← deref hostStat;
      v ← deref vmStat;
      Ok (Some {| SystemInfo.OS := runTimeOS;
                  SystemInfo.Platform := host.Platform h;
                  SystemInfo.Hostname := host.Hostname h;
                  SystemInfo.Procs := host.Procs h;
                  SystemInfo.TotalMem := div64 (mem.Total v) megabyteDiv;
                  SystemInfo.FreeMem := div64 (mem.Free v) megabyteDiv;
                  SystemInfo.UsedPercent := mem.UsedPercent v |}, None)
    end
  end.

(** [GetDiskInfo]: [Usage] is what [disk.Usage] returns on the root path. *)
Definition GetDiskInfo (Usage : option disk.UsageStat * option error)
    : Result (option DiskInfo.t * option error) :=
  let '(diskStat, err) := Usage in
  match err with
  | Some e => Ok (None, Some e)
  | None =>
    d ← deref diskStat;
    Ok (Some {| DiskInfo.Total := div64 (disk.Total d) gigabyteDiv;
                DiskInfo.Used := div64 (disk.Used d) gigabyteDiv;
                DiskInfo.Free := div64 (disk.Free d) gigabyteDiv;
                DiskInfo.UsedPercent := disk.UsedPercent d |}, None)
  end.

(** [GetCPUInfo]: [Info] and [Percent] are what [cpu.Info()] and
    [cpu.Percent(0, true)] return; a slice is a list, [nil] the empty one. *)
Definition GetCPUInfo (Info : list cpu.InfoStat * option error)
    (Percent : list float * option error)
    : Result (option CPUInfo.t * option error) :=
  let '(cpuStat, err) := Info in
  match err with
  | Some e => Ok (None, Some e)
  | None =>
    let '(percentage, err) := Percent in
    match err with
    | Some e => Ok (None, Some e)
    | None =>
      '(modelName, family, mhz) ←
        (if bool_decide (0 < length cpuStat)%nat then
           c0 ← index cpuStat 0;
           c1 ← index cpuStat 0;
           c2 ← index cpuStat 0;
           Ok (cpu.ModelName c0, cpu.Family c1, cpu.Mhz c2)
         else Ok (EmptyString, EmptyString, 0%float));
      Ok (Some {| CPUInfo.ModelName := modelName;
                  CPUInfo.Family := family;
                  CPUInfo.Mhz := mhz;
                  CPUInfo.Percentages := percentage |}, None)
    end
  end.

(** The two outcomes a collector may return. *)
Definition snapshot_xor_error {A} (r : option A * option error) : Prop :=
  (∃ a, r = (Some a, None)) ∨ (∃ e, r = (None, Some e)).

(** The convention the sources follow: a nil error comes with a value. *)
Definition source_ok {A} (r : option A * option error) : Prop :=
  r.2 = None → is_Some r.1.

End handlers.

(** ** Package main: channels and websocket connections *)

Abbreviation loc := nat (only parsing).
Abbreviation Payload := (list Byte.byte) (only parsing).

(** A buffered channel of payloads, [make(chan []byte, cap)]. *)
Record Chan := mkChan {
  buf : list Payload;
  cap : nat;
  closed : bool
}.

Definition make_chan (n : nat) : Chan :=
  {| buf := []; cap := n; closed := false |}.

(** The channel with [msg] at the end of its queue. *)
Definition enqueue (msg : Payload) (ch : Chan) : Chan :=
  {| buf := buf ch ++ [msg]; cap := cap ch; closed := closed ch |}.

(** The channel once closed; what it buffers stays readable. *)
Definition closed_chan (ch : Chan) : Chan :=
  {| buf := buf ch; cap := cap ch; closed := true |}.

(** A buffered channel accepts a send without blocking while its queue is
    shorter than its capacity.  With capacity 0 a send needs a receiver that
    waits, and the handlers never wait: they receive in a select with a
    default case. *)
Definition has_room (ch : Chan) : Prop := (length (buf ch) < cap ch)%nat.

(** [select { case ch <- msg: ... default: ... }]: [Some ch'] when the send
    case ran, [None] when the default case ran.  A send on a closed channel
    panics, also inside a select. *)
Definition select_send (msg : Payload) (ch : Chan) : Result (option Chan) :=
  if closed ch then Panic SendOnClosedChannel
  else if bool_decide (has_room ch)
       then Ok (Some (enqueue msg ch))
       else Ok None.

(** [select { case msg := <-ch: ... default: ... }]: [Some (msg, ch')] when
    the receive case ran, [None] when the default case ran.  A closed channel
    first hands out what it still buffers and then the zero value, a nil
    slice, without ever blocking. *)
Definition select_recv (ch : Chan) : option (Payload * Chan) :=
  match buf ch with
  | msg :: rest => Some (msg, {| buf := rest; cap := cap ch; closed := closed ch |})
  | [] => if closed ch then Some ([], ch) else None
  end.

(** [close(ch)]. *)
Definition close (ch : Chan) : Result Chan :=
  if closed ch then Panic CloseOfClosedChannel
  else Ok (closed_chan ch).

(** What a websocket connection carries. *)
Inductive Frame :=
  | TextMessage (data : Payload)
  | PingMessage.

(** A connection is the frames written to it so far, oldest first.
    [WriteMessage ok f c]: the peer and the network decide [ok]; a failed
    write returns a non-nil error and delivers nothing. *)
Definition WriteMessage (ok : bool) (f : Frame) (c : list Frame)
    : list Frame * option error :=
  if ok then (c ++ [f], None) else (c, Some "write failed"%string).

(** The payloads a connection received, in order. *)
Fixpoint payloads (c : list Frame) : list Payload :=
  match c with
  | [] => []
  | TextMessage m :: c' => m :: payloads c'
  | PingMessage :: c' => payloads c'
  end.

Record Subscriber := mkSubscriber {
  msgs : Chan;
  conn : list Frame
}.

(** The [Server]: its fields [subscriberMessageBuffer] and [subscribers]
    (a Go map used as a set of pointers), and [objects], the Subscriber
    objects in the heap that those pointers refer to. *)
Record Server := mkServer {
  subscriberMessageBuffer : nat;
  subscribers : gset loc;
  objects : gmap loc Subscriber
}.

Definition set_subscribers (m : gset loc) (s : Server) : Server :=
  {| subscriberMessageBuffer := subscriberMessageBuffer s;
     subscribers := m;
     objects := objects s |}.

(** Store [sub] at [x]. *)
Definition set_object (x : loc) (sub : Subscriber) (s : Server) : Server :=
  {| subscriberMessageBuffer := subscriberMessageBuffer s;
     subscribers := subscribers s;
     objects := <[x := sub]> (objects s) |}.

Definition set_msgs (ch : Chan) (sub : Subscriber) : Subscriber :=
  {| msgs := ch; conn := conn sub |}.

Definition set_conn (c : list Frame) (sub : Subscriber) : Subscriber :=
  {| msgs := msgs sub; conn := c |}.

Definition NewServer : Server :=
  {| subscriberMessageBuffer := 10; subscribers := ∅; objects := ∅ |}.

(** [len(s.subscribers)], the total that [addSubscriber] and
    [removeSubscriber] print. *)
Definition total (s : Server) : nat := size (subscribers s).

(** ** The registry *)

Definition addSubscriber (subscriber : loc) (s : Server) : Server :=
  set_subscribers ({[subscriber]} ∪ subscribers s) s.

Definition removeSubscriber (subscriber : loc) (s : Server) : Result Server :=
  let s := set_subscribers (subscribers s ∖ {[subscriber]}) s in
  sub ← deref (objects s !! subscriber);
  ch ← close (msgs sub);
  Ok (set_object subscriber (set_msgs ch sub) s).

(** The body of the [range] loop of [publishMsg] at [subscriber]. *)
Definition publishMsg_body (msg : Payload) (s : Server) (subscriber : loc)
    : Result Server :=
  sub ← deref (objects s !! subscriber);
  sent ← select_send msg (msgs sub);
  match sent with
  | Some ch => Ok (set_object subscriber (set_msgs ch sub) s)
  | None =>
    let s := set_subscribers (subscribers s ∖ {[subscriber]}) s in
    ch ← close (msgs sub);
    Ok (set_object subscriber (set_msgs ch sub) s)
  end.

(** The [range] loop over the keys, visited in the order [keys]. *)
Fixpoint publishMsg_range (msg : Payload) (keys : list loc) (s : Server)
    : Result Server :=
  match keys with
  | [] => Ok s
  | subscriber :: keys' =>
    s' ← publishMsg_body msg s subscriber;
    publishMsg_range msg keys' s'
  end.

(** Go leaves the iteration order of a map open: [range_order s keys] says
    that [keys] is one of the orders the loop may visit the members in. *)
Definition range_order (s : Server) (keys : list loc) : Prop :=
  keys ≡ₚ elements (subscribers s).

(** [publishMsg], with the order taken from [elements]. *)
Definition publishMsg (msg : Payload) (s : Server) : Result Server :=
  publishMsg_range msg (elements (subscribers s)) s.

(** What [publishMsg] makes of a registered subscriber: the payload is
    at the end of its outbox when the outbox had room, and its outbox is
    closed when it had none. *)
Definition delivered (msg : Payload) (sub : Subscriber) : Subscriber :=
  if bool_decide (has_room (msgs sub))
  then set_msgs (enqueue msg (msgs sub)) sub
  else set_msgs (closed_chan (msgs sub)) sub.

(** ** The connection handler *)

Inductive Control := Continue | Return.

(** The first statements of [websocketHandler]: allocate the subscriber
    with a fresh outbox and register it. *)
Definition websocketHandler_enter (s : Server) : loc * Server :=
  let subscriber := fresh (dom (objects s)) in
  let sub := {| msgs := make_chan (subscriberMessageBuffer s); conn := [] |} in
  (subscriber, addSubscriber subscriber (set_object subscriber sub s)).

(** One iteration of the [for { select ... }] loop; [ok] is the outcome of
    the one [WriteMessage] it performs. *)
Definition websocketHandler_body (ok : bool) (subscriber : loc) (s : Server)
    : Result (Control * Server) :=
  sub ← deref (objects s !! subscriber);
  match select_recv (msgs sub) with
  | Some (msg, ch) =>
    let sub := set_msgs ch sub in
    let '(c, err) := WriteMessage ok (TextMessage msg) (conn sub) in
    let s := set_object subscriber (set_conn c sub) s in
    match err with
    | Some _ => Ok (Return, s)
    | None => Ok (Continue, s)
    end
  | None =>
    let '(c, err) := WriteMessage ok PingMessage (conn sub) in
    let s := set_object subscriber (set_conn c sub) s in
    match err with
    | Some _ => Ok (Return, s)
    | None => Ok (Continue, s)
    end
  end.

(** One iteration followed, when it returns, by the deferred
    [removeSubscriber]. *)
Definition websocketHandler_step (ok : bool) (subscriber : loc) (s : Server)
    : Result (Control * Server) :=
  '(c, s) ← websocketHandler_body ok subscriber s;
  match c with
  | Continue => Ok (Continue, s)
  | Return => s ← removeSubscriber subscriber s; Ok (Return, s)
  end.

(** The loop on its own, against a transport whose successive writes have
    the outcomes [transport]: [Continue] when the loop is still running after
    that many writes. *)
Fixpoint websocketHandler_loop (transport : list bool) (subscriber : loc)
    (s : Server) : Result (Control * Server) :=
  match transport with
  | [] => Ok (Continue, s)
  | ok :: transport' =>
    '(c, s) ← websocketHandler_step ok subscriber s;
    match c with
    | Continue => websocketHandler_loop transport' subscriber s
    | Return => Ok (Return, s)
    end
  end.

Definition websocketHandler (transport : list bool) (s : Server)
    : Result (Control * Server) :=
  let '(subscriber, s) := websocketHandler_enter s in
  websocketHandler_loop transport subscriber s.

(** ** Executions of the program *)

(** What can happen next: a connection is accepted and its handler
    registers a new subscriber; the handler of [subscriber] runs one
    iteration of its loop, its write having the outcome [ok]; the publisher
    reaches [publishMsg] with [msg].  The goroutines interleave at these
    steps.  [Publish] is one step because [publishMsg] holds the mutex.
    [Write] takes a whole iteration as one step, the receive, the write and,
    when the write fails, the deferred [removeSubscriber]; [Connect] takes
    the allocation and [addSubscriber] as one step.  The program can run a
    publish inside them: between the receive and the write, between the
    delete and the close of [removeSubscriber], which closes after it has
    unlocked, and between the allocation and the registration.  A sequence
    of events may also name a handler whose loop has returned, which the
    program never runs again; [returns_at_failed_write] rules that out where
    it matters. *)
Inductive Event :=
  | Connect
  | Write (subscriber : loc) (ok : bool)
  | Publish (msg : Payload).

Definition step (e : Event) (s : Server) : Result Server :=
  match e with
  | Connect => Ok (websocketHandler_enter s).2
  | Write subscriber ok =>
    '(_, s) ← websocketHandler_step ok subscriber s; Ok s
  | Publish msg => publishMsg msg s
  end.

Fixpoint run (t : list Event) (s : Server) : Result Server :=
  match t with
  | [] => Ok s
  | e :: t' => s' ← step e s; run t' s'
  end.

(** The payloads published along an execution, in order. *)
Fixpoint published (t : list Event) : list Payload :=
  match t with
  | [] => []
  | Publish msg :: t' => msg :: published t'
  | _ :: t' => published t'
  end.

(** The invariant of the registry: every member is an allocated subscriber
    whose outbox is open. *)
Definition registry_ok (s : Server) : Prop :=
  ∀ x, x ∈ subscribers s →
    ∃ sub, objects s !! x = Some sub ∧ closed (msgs sub) = false.

(** The two ways a subscriber gets unregistered, taking the server from
    [s] to [s']: explicitly, by [removeSubscriber]; or by [publishMsg]
    evicting it because its outbox is full. *)
Inductive unregisters (x : loc) (s s' : Server) : Prop :=
  | unregisters_explicitly :
      removeSubscriber x s = Ok s' → unregisters x s s'
  | unregisters_by_eviction (msg : Payload) :
      x ∈ subscribers s → publishMsg msg s = Ok s' → x ∉ subscribers s' →
      unregisters x s s'.

(** ** Sequences of calls to the registry *)

Inductive Call :=
  | Register (subscriber : loc)
  | Unregister (subscriber : loc).

Definition call (c : Call) (s : Server) : Result Server :=
  match c with
  | Register x => Ok (addSubscriber x s)
  | Unregister x => removeSubscriber x s
  end.

Fixpoint calls (cs : list Call) (s : Server) : Result Server :=
  match cs with
  | [] => Ok s
  | c :: cs' => s' ← call c s; calls cs' s'
  end.

(** The membership set as the call leaves it; [removeSubscriber] has it
    so when it prints the total, before it closes the outbox. *)
Definition call_members (c : Call) (s : Server) : gset loc :=
  match c with
  | Register x => subscribers (addSubscriber x s)
  | Unregister x => subscribers s ∖ {[x]}
  end.

(** The total that the call prints. *)
Definition call_total (c : Call) (s : Server) : nat := size (call_members c s).

(** The reference count follows the words of the specification: the
    subscribers registered and not yet unregistered, kept as a list without
    repetition.  Registering one that is not in the list puts it there,
    unregistering takes it out. *)
Definition registered_step (live : list loc) (c : Call) : list loc :=
  match c with
  | Register x => if bool_decide (x ∈ live) then live else x :: live
  | Unregister x => filter (λ y, y ≠ x) live
  end.

Definition registered (cs : list Call) (live : list loc) : list loc :=
  foldl registered_step live cs.

(** ** The periodic publisher *)

(** What one tick of the ticker finds: the answers of the metric sources
    and the clock. *)
Record Tick := mkTick {
  GOOS : string;
  VirtualMemory : option mem.VirtualMemoryStat * option error;
  hostInfo : option host.InfoStat * option error;
  Usage : option disk.UsageStat * option error;
  cpuInfo : list cpu.InfoStat * option error;
  Percent : list float * option error;
  Now : string
}.

(** A templ component is its [Render]: it appends to the buffer it is given
    and may return an error. *)
Abbreviation Component := (string → string * option error) (only parsing).

Definition quote : string := String (Ascii.ascii_of_nat 34) EmptyString.
Definition newline_indent : string :=
  String (Ascii.ascii_of_nat 10)
    (String (Ascii.ascii_of_nat 9) (String (Ascii.ascii_of_nat 9)
      (String (Ascii.ascii_of_nat 9) (String (Ascii.ascii_of_nat 9) EmptyString)))).

(** One line of the format string, [%s] replaced by [body]. *)
Definition oob (anchor body : string) : string :=
  newline_indent +:+ "<div hx-swap-oob=" +:+ quote +:+ "innerHTML:#" +:+ anchor
    +:+ quote +:+ ">" +:+ body +:+ "</div>".

(** The [fmt.Sprintf] of the publisher. *)
Definition Sprintf_msg (status system cpu disk : string) : string :=
  oob "update-timestamp" status +:+ oob "system-data" system
    +:+ oob "cpu-data" cpu +:+ oob "disk-data" disk.

Section Publisher.

(** The publisher is written against what it publishes to, so that its
    calls can be observed: [publish] stands for [s.publishMsg]. *)
Context {St : Type}.
Variable publish : Payload → St → Result St.

(** Package templates. *)
Variable SystemData : string → string → string → Z → Z → Z → float → Component.
Variable DiskData : Z → Z → Z → float → Component.
Variable CPUData : string → string → float → list float → Component.
Variable StatusUpdate : string → Component.

(** [if err != nil { ...; continue }]: a cycle that continues has no
    payload. *)
Definition or_continue (err : option error)
    (k : Result (option Payload)) : Result (option Payload) :=
  match err with
  | Some _ => Ok None
  | None => k
  end.

(** The body of the [for range ticker.C] loop up to the call of
    [publishMsg]: the payload it is about to publish, or [None] when it
    continues with the next tick. *)
Definition cycle (io : Tick) : Result (option Payload) :=
  '(systemInfo, err) ← handlers.GetSystemInfo (GOOS io) (VirtualMemory io) (hostInfo io);
  or_continue err (
  '(diskInfo, err) ← handlers.GetDiskInfo (Usage io);
  or_continue err (
  '(cpuInfo, err) ← handlers.GetCPUInfo (cpuInfo io) (Percent io);
  or_continue err (
  let timeStamp := Now io in
  si ← deref systemInfo;
  let '(systemBuf, err) :=
    SystemData (handlers.SystemInfo.OS si) (handlers.SystemInfo.Platform si)
      (handlers.SystemInfo.Hostname si) (handlers.SystemInfo.Procs si)
      (handlers.SystemInfo.TotalMem si) (handlers.SystemInfo.FreeMem si)
      (handlers.SystemInfo.UsedPercent si) EmptyString in
  or_continue err (
  di ← deref diskInfo;
  let '(diskBuf, err) :=
    DiskData (handlers.DiskInfo.Total di) (handlers.DiskInfo.Used di)
      (handlers.DiskInfo.Free di) (handlers.DiskInfo.UsedPercent di)
      EmptyString in
  or_continue err (
  ci ← deref cpuInfo;
  let '(cpuBuf, err) :=
    CPUData (handlers.CPUInfo.ModelName ci) (handlers.CPUInfo.Family ci)
      (handlers.CPUInfo.Mhz ci) (handlers.CPUInfo.Percentages ci)
      EmptyString in
  or_continue err (
  let '(statusBuf, err) := StatusUpdate timeStamp EmptyString in
  or_continue err (
  Ok (Some (String.list_byte_of_string
              (Sprintf_msg statusBuf systemBuf cpuBuf diskBuf)))))))))).

(** One iteration of the loop. *)
Definition startDataPublisher_tick (io : Tick) (s : St) : Result St :=
  next ← cycle io;
  match next with
  | Some msg => publish msg s
  | None => Ok s
  end.

(** The loop over the ticks that the ticker delivers. *)
Fixpoint startDataPublisher (ticks : list Tick) (s : St) : Result St :=
  match ticks with
  | [] => Ok s
  | io :: ticks' =>
    s' ← startDataPublisher_tick io s;
    startDataPublisher ticks' s'
  end.

End Publisher.

(** A registry that only records the payloads it is asked to publish. *)
Definition record_publish (msg : Payload) (log : list Payload)
    : Result (list Payload) :=
  Ok (log ++ [msg]).

(** The subscriber after one iteration of its loop whose write had the
    outcome [ok]: what was received is gone from the outbox, and the frame
    is on the connection when the write succeeded. *)
Definition served (ok : bool) (sub : Subscriber) : Subscriber :=
  match select_recv (msgs sub) with
  | Some (msg, ch) =>
    {| msgs := ch;
       conn := if ok then conn sub ++ [TextMessage msg] else conn sub |}
  | None =>
    {| msgs := msgs sub;
       conn := if ok then conn sub ++ [PingMessage] else conn sub |}
  end.

(** The invariant of the registry, as a check. *)
Definition registry_okb (s : Server) : bool :=
  forallb (λ x, match objects s !! x with
                | Some sub => negb (closed (msgs sub))
                | None => false
                end) (elements (subscribers s)).

(** ** Scenarios *)

Definition payload (s : string) : Payload := String.list_byte_of_string s.

(** A server whose outboxes hold two payloads. *)
Definition small_server : Server :=
  {| subscriberMessageBuffer := 2; subscribers := ∅; objects := ∅ |}.

(** A healthy tick, a tick on which the disk cannot be read, and
    components that render to plain text. *)
Definition good_tick : Tick :=
  {| GOOS := "linux";
     VirtualMemory := (Some (mem.mkVirtualMemoryStat 8589934592 1073741824 50%float), None);
     hostInfo := (Some (host.mkInfoStat "ubuntu" "box" 321), None);
     Usage := (Some (disk.mkUsageStat 5368709120 1073741824 4294967296 20%float), None);
     cpuInfo := ([cpu.mkInfoStat "M1" "6" 3200%float], None);
     Percent := ([25%float; 75%float], None);
     Now := "2026-01-01 00:00:00" |}.

Definition disk_failure_tick : Tick :=
  {| GOOS := "linux";
     VirtualMemory := (Some (mem.mkVirtualMemoryStat 8589934592 1073741824 50%float), None);
     hostInfo := (Some (host.mkInfoStat "ubuntu" "box" 321), None);
     Usage := (None, Some "permission denied"%string);
     cpuInfo := ([cpu.mkInfoStat "M1" "6" 3200%float], None);
     Percent := ([25%float; 75%float], None);
     Now := "2026-01-01 00:00:02" |}.

Definition plain_SystemData (os platform hostname : string)
    (procs totalMem freeMem : Z) (usedPercent : float) : Component :=
  λ buffer, (buffer +:+ os +:+ "/" +:+ hostname, None).

Definition plain_DiskData (total used free : Z) (usedPercent : float)
    : Component :=
  λ buffer, (buffer +:+ "disk", None).

Definition plain_CPUData (modelName family : string) (mhz : float)
    (percentages : list float) : Component :=
  λ buffer, (buffer +:+ modelName, None).

Definition plain_StatusUpdate (timeStamp : string) : Component :=
  λ buffer, (buffer +:+ timeStamp, None).

(** A status component whose render fails. *)
Definition failing_StatusUpdate (timeStamp : string) : Component :=
  λ buffer, (buffer, Some "render failed"%string).

(** What the specification expects of one cycle, in its words: the one
    payload of a cycle in which every collection step and every render step
    succeeds, and nothing for a cycle in which any of them fails. *)
Definition expected_publication
    (SystemData : string → string → string → Z → Z → Z → float → Component)
    (DiskData : Z → Z → Z → float → Component)
    (CPUData : string → string → float → list float → Component)
    (StatusUpdate : string → Component)
    (io : Tick) : option Payload :=
  match handlers.GetSystemInfo (GOOS io) (VirtualMemory io) (hostInfo io),
        handlers.GetDiskInfo (Usage io),
        handlers.GetCPUInfo (cpuInfo io) (Percent io) with
  | Ok (Some si, None), Ok (Some di, None), Ok (Some ci, None) =>
    let system :=
      SystemData (handlers.SystemInfo.OS si) (handlers.SystemInfo.Platform si)
        (handlers.SystemInfo.Hostname si) (handlers.SystemInfo.Procs si)
        (handlers.SystemInfo.TotalMem si) (handlers.SystemInfo.FreeMem si)
        (handlers.SystemInfo.UsedPercent si) EmptyString in
    let disk :=
      DiskData (handlers.DiskInfo.Total di) (handlers.DiskInfo.Used di)
        (handlers.DiskInfo.Free di) (handlers.DiskInfo.UsedPercent di)
        EmptyString in
    let cpu :=
      CPUData (handlers.CPUInfo.ModelName ci) (handlers.CPUInfo.Family ci)
        (handlers.CPUInfo.Mhz ci) (handlers.CPUInfo.Percentages ci)
        EmptyString in
    let status := StatusUpdate (Now io) EmptyString in
    match system.2, disk.2, cpu.2, status.2 with
    | None, None, None, None =>
      Some (String.list_byte_of_string
              (Sprintf_msg status.1 system.1 cpu.1 disk.1))
    | _, _, _, _ => None
    end
  | _, _, _ => None
  end.

(** The sources of a tick follow the Go convention. *)
Definition tick_sources_ok (io : Tick) : Prop :=
  handlers.source_ok (VirtualMemory io) ∧ handlers.source_ok (hostInfo io)
  ∧ handlers.source_ok (Usage io).


(** ** One subscriber's view of an execution *)


(** Whether [x] is evicted for saturation along [t], run from [s]: some
    publish call finds it registered and leaves it unregistered. *)
Fixpoint evicted (x : loc) (t : list Event) (s : Server) : bool :=
  match t with
  | [] => false
  | e :: t' =>
    match step e s with
    | Ok s' =>
      match e with
      | Publish _ =>
        bool_decide (x ∈ subscribers s) && negb (bool_decide (x ∈ subscribers s'))
      | _ => false
      end || evicted x t' s'
    | Panic _ => false
    end
  end.




(** ** Invariants of the running program *)

(** No outbox holds more than its capacity, and every outbox has the
    capacity the server is configured with. *)
Definition outboxes_bounded (s : Server) : Prop :=
  ∀ x sub, objects s !! x = Some sub →
    (length (buf (msgs sub)) ≤ cap (msgs sub))%nat ∧
    cap (msgs sub) = subscriberMessageBuffer s.

(** The allocated subscribers whose outbox is open. *)
Definition open_outboxes (s : Server) : gmap loc Subscriber :=
  filter (λ kv, closed (msgs kv.2) = false) (objects s).

(** The subscribers that a sequence of calls unregisters. *)
Definition unregistered_by (cs : list Call) : list loc :=
  omap (λ c, match c with Unregister x => Some x | Register _ => None end) cs.

(** * Properties of package handlers *)

Module handlers_facts.
Import handlers.

Lemma megabyteDiv_eq : megabyteDiv = 2 ^ 20.
Proof. reflexivity. Qed.

Lemma gigabyteDiv_eq : gigabyteDiv = 2 ^ 30.
Proof. reflexivity. Qed.

(** On values of the type, dividing by a positive constant never wraps. *)
Lemma div64_small a b : u64 a → 0 < b → div64 a b = a / b.
Proof.
  intros [Ha0 Ha] Hb. unfold div64, wrap64.
  apply Z.mod_small. split.
  - apply Z.div_pos; lia.
  - apply Z.div_lt_upper_bound; nia.
Qed.

(** The quotient is the floor: the largest multiple of [b] below [a]. *)
Lemma div64_floor a b :
  u64 a → 0 < b → b * div64 a b ≤ a < b * (div64 a b + 1).
Proof.
  intros Ha Hb. rewrite div64_small by done.
  pose proof (Z.mul_div_le a b Hb).
  pose proof (Z.mul_succ_div_gt a b Hb). lia.
Qed.

(** A collector that succeeds was given a value by each of its sources. *)
Lemma GetSystemInfo_success_inv os VM HI si :
  GetSystemInfo os VM HI = Ok (Some si, None) →
  ∃ vm hi, VM = (Some vm, None) ∧ HI = (Some hi, None).
Proof.
  destruct VM as [[vm|] [e|]], HI as [[hi|] [e'|]]; simpl; try discriminate.
  intros _. by exists vm, hi.
Qed.

Lemma GetDiskInfo_success_inv DU di :
  GetDiskInfo DU = Ok (Some di, None) → ∃ d, DU = (Some d, None).
Proof.
  destruct DU as [[d|] [e|]]; simpl; try discriminate.
  intros _. by exists d.
Qed.

(** C8.  Each of GetSystemInfo, GetDiskInfo and GetCPUInfo returns either
    a snapshot with a nil error, or no snapshot with the error of the
    source that failed, never both and never neither.  The sources follow
    the Go convention that a nil error comes with a value. *)
Theorem collectors_return_snapshot_xor_error
    (os : string)
    (VM : option mem.VirtualMemoryStat * option error)
    (HI : option host.InfoStat * option error)
    (DU : option disk.UsageStat * option error)
    (CI : list cpu.InfoStat * option error)
    (CP : list float * option error) :
  source_ok VM → source_ok HI → source_ok DU →
  (∃ r, GetSystemInfo os VM HI = Ok r ∧ snapshot_xor_error r ∧
        (r.2 = None ↔ VM.2 = None ∧ HI.2 = None) ∧
        (∀ e, r.2 = Some e → VM.2 = Some e ∨ VM.2 = None ∧ HI.2 = Some e)) ∧
  (∃ r, GetDiskInfo DU = Ok r ∧ snapshot_xor_error r ∧ r.2 = DU.2) ∧
  (∃ r, GetCPUInfo CI CP = Ok r ∧ snapshot_xor_error r ∧
        (r.2 = None ↔ CI.2 = None ∧ CP.2 = None) ∧
        (∀ e, r.2 = Some e → CI.2 = Some e ∨ CI.2 = None ∧ CP.2 = Some e)).
Proof.
  unfold source_ok, snapshot_xor_error.
  destruct VM as [vm [e1|]], HI as [hi [e2|]], DU as [du [e3|]],
           CI as [ci [e4|]], CP as [cp [e5|]]; simpl;
    intros Hvm Hhi Hdu;
    try (destruct Hvm as [? ->]; [done|]);
    try (destruct Hhi as [? ->]; [done|]);
    try (destruct Hdu as [? ->]; [done|]);
    repeat split;
    try (destruct ci; simpl);
    eexists; (split; [reflexivity|]); simpl;
    intuition (eauto; congruence).
Qed.

Lemma collectors_return_snapshot_xor_error_witness :
  let VM := (Some (mem.mkVirtualMemoryStat 8589934592 1073741824 50%float), None) in
  let HI := (None, Some "host: not implemented"%string) in
  let DU := (Some (disk.mkUsageStat 5368709120 1073741824 4294967296 20%float), None) in
  (∃ r, GetSystemInfo "linux" VM HI = Ok r ∧ snapshot_xor_error r ∧
        (r.2 = None ↔ VM.2 = None ∧ HI.2 = None) ∧
        (∀ e, r.2 = Some e → VM.2 = Some e ∨ VM.2 = None ∧ HI.2 = Some e)) ∧
  (∃ r, GetDiskInfo DU = Ok r ∧ snapshot_xor_error r ∧ r.2 = DU.2) ∧
  (∃ r, GetCPUInfo ([], None) ([], None) = Ok r ∧ snapshot_xor_error r ∧
        (r.2 = None ↔ (@nil cpu.InfoStat, @None error).2 = None
                      ∧ (@nil float, @None error).2 = None) ∧
        (∀ e, r.2 = Some e →
           (@nil cpu.InfoStat, @None error).2 = Some e
           ∨ (@nil cpu.InfoStat, @None error).2 = None
             ∧ (@nil float, @None error).2 = Some e)).
Proof.
  intros VM HI DU.
  apply (collectors_return_snapshot_xor_error "linux" VM HI DU ([], None) ([], None)).
  - intros _. simpl. eauto.
  - simpl. discriminate.
  - intros _. simpl. eauto.
Defined.

(** C9.  When cpu.Info returns an empty list and no error, GetCPUInfo
    does not fail on the list: with the percentages at hand it returns a
    CPUInfo with empty ModelName and Family and a zero Mhz, and whatever
    cpu.Percent answers it never indexes the empty list. *)
Theorem GetCPUInfo_empty_list :
  (∀ percentage,
     GetCPUInfo ([], None) (percentage, None) =
     Ok (Some {| CPUInfo.ModelName := EmptyString;
                 CPUInfo.Family := EmptyString;
                 CPUInfo.Mhz := 0%float;
                 CPUInfo.Percentages := percentage |}, None)) ∧
  (∀ CP, ∃ r, GetCPUInfo ([], None) CP = Ok r ∧ r.2 = CP.2).
Proof.
  split; [done|].
  intros [cp [e|]]; eexists; (split; [reflexivity|done]).
Qed.

(** C10.  On success GetSystemInfo reports TotalMem and FreeMem as the
    source's byte counts floor-divided by 2^20, GetDiskInfo reports Total,
    Used and Free as the source's byte counts floor-divided by 2^30, and
    both pass UsedPercent through unchanged. *)
Theorem sizes_are_floor_divided
    (os : string) (vm : mem.VirtualMemoryStat) (hi : host.InfoStat)
    (d : disk.UsageStat) :
  u64 (mem.Total vm) → u64 (mem.Free vm) →
  u64 (disk.Total d) → u64 (disk.Used d) → u64 (disk.Free d) →
  (∃ si, GetSystemInfo os (Some vm, None) (Some hi, None) = Ok (Some si, None) ∧
     SystemInfo.TotalMem si = mem.Total vm / 2 ^ 20 ∧
     SystemInfo.FreeMem si = mem.Free vm / 2 ^ 20 ∧
     2 ^ 20 * SystemInfo.TotalMem si ≤ mem.Total vm
       < 2 ^ 20 * (SystemInfo.TotalMem si + 1) ∧
     2 ^ 20 * SystemInfo.FreeMem si ≤ mem.Free vm
       < 2 ^ 20 * (SystemInfo.FreeMem si + 1) ∧
     SystemInfo.UsedPercent si = mem.UsedPercent vm) ∧
  (∃ di, GetDiskInfo (Some d, None) = Ok (Some di, None) ∧
     DiskInfo.Total di = disk.Total d / 2 ^ 30 ∧
     DiskInfo.Used di = disk.Used d / 2 ^ 30 ∧
     DiskInfo.Free di = disk.Free d / 2 ^ 30 ∧
     2 ^ 30 * DiskInfo.Total di ≤ disk.Total d
       < 2 ^ 30 * (DiskInfo.Total di + 1) ∧
     2 ^ 30 * DiskInfo.Used di ≤ disk.Used d
       < 2 ^ 30 * (DiskInfo.Used di + 1) ∧
     2 ^ 30 * DiskInfo.Free di ≤ disk.Free d
       < 2 ^ 30 * (DiskInfo.Free di + 1) ∧
     DiskInfo.UsedPercent di = disk.UsedPercent d).
Proof.
  intros Ht Hf Hdt Hdu Hdf. split; eexists; (split; [reflexivity|]); simpl.
  - rewrite megabyteDiv_eq.
    pose proof (div64_floor _ (2 ^ 20) Ht eq_refl).
    pose proof (div64_floor _ (2 ^ 20) Hf eq_refl).
    rewrite !div64_small in * by done. done.
  - rewrite gigabyteDiv_eq.
    pose proof (div64_floor _ (2 ^ 30) Hdt eq_refl).
    pose proof (div64_floor _ (2 ^ 30) Hdu eq_refl).
    pose proof (div64_floor _ (2 ^ 30) Hdf eq_refl).
    rewrite !div64_small in * by done. done.
Qed.

Lemma sizes_are_floor_divided_witness :
  ∃ si di,
    GetSystemInfo "linux"
      (Some (mem.mkVirtualMemoryStat 8589934591 1048575 50%float), None)
      (Some (host.mkInfoStat "ubuntu" "box" 321), None) = Ok (Some si, None) ∧
    GetDiskInfo
      (Some (disk.mkUsageStat 5368709120 1073741823 4294967297 20%float), None)
      = Ok (Some di, None) ∧
    SystemInfo.TotalMem si = 8191 ∧ SystemInfo.FreeMem si = 0 ∧
    DiskInfo.Total di = 5 ∧ DiskInfo.Used di = 0 ∧ DiskInfo.Free di = 4.
Proof.
  destruct (sizes_are_floor_divided "linux"
              (mem.mkVirtualMemoryStat 8589934591 1048575 50%float)
              (host.mkInfoStat "ubuntu" "box" 321)
              (disk.mkUsageStat 5368709120 1073741823 4294967297 20%float))
    as [(si & Hsi & Ht & Hf & _) (di & Hdi & Hdt & Hdu & Hdf & _)];
    try (unfold u64; simpl; lia).
  exists si, di. simpl in *.
  rewrite Ht, Hf, Hdt, Hdu, Hdf. repeat split; done.
Defined.

End handlers_facts.

(** * Properties of the registry and the fan-out *)

Lemma select_send_open msg ch :
  closed ch = false →
  select_send msg ch =
    Ok (if bool_decide (has_room ch) then Some (enqueue msg ch) else None).
Proof. intros Hc. unfold select_send. rewrite Hc. by case_bool_decide. Qed.

Lemma close_open ch : closed ch = false → close ch = Ok (closed_chan ch).
Proof. intros Hc. unfold close. by rewrite Hc. Qed.

Lemma close_closed ch : closed ch = true → close ch = Panic CloseOfClosedChannel.
Proof. intros Hc. unfold close. by rewrite Hc. Qed.

(** What one visit of the range loop does to an open outbox. *)
Lemma publishMsg_body_open msg s x sub :
  objects s !! x = Some sub → closed (msgs sub) = false →
  publishMsg_body msg s x =
    Ok (if bool_decide (has_room (msgs sub))
        then set_object x (set_msgs (enqueue msg (msgs sub)) sub) s
        else set_object x (set_msgs (closed_chan (msgs sub)) sub)
               (set_subscribers (subscribers s ∖ {[x]}) s)).
Proof.
  intros Hx Hc. unfold publishMsg_body. rewrite Hx. simpl.
  rewrite select_send_open by done. simpl.
  case_bool_decide; [done|]. simpl. by rewrite close_open.
Qed.

(** A visit touches nothing but the visited subscriber. *)
Lemma publishMsg_body_frame msg s x s' :
  publishMsg_body msg s x = Ok s' →
  subscriberMessageBuffer s' = subscriberMessageBuffer s ∧
  dom (objects s') = dom (objects s) ∧
  subscribers s' ⊆ subscribers s ∧
  ∀ y, y ≠ x →
    objects s' !! y = objects s !! y ∧ (y ∈ subscribers s' ↔ y ∈ subscribers s).
Proof.
  unfold publishMsg_body. intros H.
  destruct (objects s !! x) as [sub|] eqn:Hx; simpl in H; [|done].
  assert (x ∈ dom (objects s)) as Hdom by (apply elem_of_dom; eauto).
  destruct (select_send msg (msgs sub)) as [[ch|]|] eqn:Hs; simpl in H; [| |done].
  - injection H as <-. simpl. rewrite dom_insert_L.
    split_and!; [done|set_solver|set_solver|].
    intros y Hy. by rewrite lookup_insert_ne.
  - destruct (close (msgs sub)) as [ch|] eqn:Hcl; simpl in H; [|done].
    injection H as <-. simpl. rewrite dom_insert_L.
    split_and!; [done|set_solver|set_solver|].
    intros y Hy. rewrite lookup_insert_ne by done. set_solver.
Qed.

Lemma publishMsg_range_frame msg keys : ∀ s s',
  publishMsg_range msg keys s = Ok s' →
  subscriberMessageBuffer s' = subscriberMessageBuffer s ∧
  dom (objects s') = dom (objects s) ∧
  subscribers s' ⊆ subscribers s ∧
  ∀ y, y ∉ keys →
    objects s' !! y = objects s !! y ∧ (y ∈ subscribers s' ↔ y ∈ subscribers s).
Proof.
  induction keys as [|k keys IH]; intros s s' H; simpl in H.
  - injection H as <-. done.
  - destruct (publishMsg_body msg s k) as [s1|] eqn:Hb; simpl in H; [|done].
    apply publishMsg_body_frame in Hb as (Hb1 & Hb2 & Hb3 & Hb4).
    apply IH in H as (H1 & H2 & H3 & H4).
    split_and!; [congruence|congruence|set_solver|].
    intros y Hy. apply not_elem_of_cons in Hy as [Hne Hy].
    destruct (H4 y Hy) as [-> ->]. by apply Hb4.
Qed.

(** The range loop over keys without repetition whose outboxes are open:
    it ends, and each visited subscriber got the payload or was evicted. *)
Lemma publishMsg_range_open msg keys : ∀ s,
  NoDup keys →
  (∀ x, x ∈ keys → ∃ sub, objects s !! x = Some sub ∧ closed (msgs sub) = false) →
  ∃ s', publishMsg_range msg keys s = Ok s' ∧
    ∀ x sub, x ∈ keys → objects s !! x = Some sub →
      objects s' !! x = Some (delivered msg sub) ∧
      (x ∈ subscribers s' ↔ x ∈ subscribers s ∧ has_room (msgs sub)).
Proof.
  induction keys as [|k keys IH]; intros s Hnd Hopen; simpl.
  - eexists; split; [done|]. intros x sub Hx. by apply elem_of_nil in Hx.
  - apply NoDup_cons in Hnd as [Hk Hnd].
    destruct (Hopen k) as (subk & Hsubk & Hck); [by left|].
    rewrite (publishMsg_body_open _ _ _ _ Hsubk Hck). simpl.
    set (s1 := if bool_decide (has_room (msgs subk)) then _ else _).
    assert (objects s1 !! k = Some (delivered msg subk) ∧
            (k ∈ subscribers s1 ↔ k ∈ subscribers s ∧ has_room (msgs subk)) ∧
            ∀ y, y ≠ k → objects s1 !! y = objects s !! y) as (Hk1 & Hk2 & Hk3).
    { subst s1. unfold delivered. case_bool_decide; simpl.
      - rewrite lookup_insert_eq. split_and!; [done|tauto|].
        intros y Hy. by rewrite lookup_insert_ne.
      - rewrite lookup_insert_eq. split_and!; [done|set_solver|].
        intros y Hy. by rewrite lookup_insert_ne. }
    destruct (IH s1 Hnd) as (s' & Hrun & Hs').
    { intros x Hx. rewrite Hk3 by (intros ->; done). apply Hopen. by right. }
    exists s'. split; [done|]. intros x sub Hx Hsub.
    apply publishMsg_range_frame in Hrun as Hfr.
    destruct Hfr as (_ & _ & _ & Hfr).
    apply elem_of_cons in Hx as [->|Hx].
    + destruct (Hfr k Hk) as [-> ->]. by simplify_eq.
    + assert (x ≠ k) as Hne by (intros ->; done).
      destruct (Hs' x sub Hx) as [Ho Hm]; [by rewrite Hk3|].
      split; [done|]. rewrite Hm.
      pose proof (publishMsg_body_frame msg s k s1
                    (publishMsg_body_open _ _ _ _ Hsubk Hck)) as (_ & _ & _ & Hb).
      destruct (Hb x Hne) as [_ ->]. done.
Qed.

Lemma range_order_elements s : range_order s (elements (subscribers s)).
Proof. by unfold range_order. Qed.

Lemma range_order_NoDup s keys : range_order s keys → NoDup keys.
Proof. unfold range_order. intros ->. apply NoDup_elements. Qed.

Lemma range_order_elem_of s keys x :
  range_order s keys → x ∈ keys ↔ x ∈ subscribers s.
Proof. unfold range_order. intros ->. apply elem_of_elements. Qed.

(** The whole loop, whatever order the members are visited in. *)
Lemma publishMsg_range_spec msg keys s :
  registry_ok s → range_order s keys →
  ∃ s', publishMsg_range msg keys s = Ok s' ∧
    subscriberMessageBuffer s' = subscriberMessageBuffer s ∧
    (∀ x sub, x ∈ subscribers s → objects s !! x = Some sub →
       objects s' !! x = Some (delivered msg sub) ∧
       (x ∈ subscribers s' ↔ has_room (msgs sub))) ∧
    (∀ x, x ∉ subscribers s →
       (x ∉ subscribers s') ∧ objects s' !! x = objects s !! x).
Proof.
  intros Hok Hord.
  destruct (publishMsg_range_open msg keys s) as (s' & Hrun & Hs').
  { by eapply range_order_NoDup. }
  { intros x Hx. apply Hok. by eapply range_order_elem_of. }
  exists s'. split; [done|].
  apply publishMsg_range_frame in Hrun as (Hbuf & _ & Hsub & Hfr).
  split_and!; [done| |].
  - intros x sub Hx Hsub'.
    destruct (Hs' x sub) as [Ho Hm]; [by eapply range_order_elem_of|done|].
    split; [done|]. rewrite Hm. tauto.
  - intros x Hx.
    destruct (Hfr x) as [Ho Hm].
    { by rewrite (range_order_elem_of s keys x Hord). }
    split; [by rewrite Hm|done].
Qed.

(** The order of the visits does not show in the result. *)
Lemma publishMsg_range_any_order msg keys s :
  registry_ok s → range_order s keys →
  publishMsg_range msg keys s = publishMsg msg s.
Proof.
  intros Hok Hord. unfold publishMsg.
  destruct (publishMsg_range_spec msg keys s Hok Hord)
    as (s1 & -> & Hb1 & Hin1 & Hout1).
  destruct (publishMsg_range_spec msg _ s Hok (range_order_elements s))
    as (s2 & -> & Hb2 & Hin2 & Hout2).
  f_equal. destruct s1 as [b1 m1 o1], s2 as [b2 m2 o2]; simpl in *.
  f_equal; [congruence| |].
  - apply set_eq. intros x.
    destruct (decide (x ∈ subscribers s)) as [Hx|Hx].
    + destruct (Hok x Hx) as (sub & Hsub & _).
      destruct (Hin1 x sub Hx Hsub) as [_ ->].
      destruct (Hin2 x sub Hx Hsub) as [_ ->]. done.
    + destruct (Hout1 x Hx) as [? _]. destruct (Hout2 x Hx) as [? _]. tauto.
  - apply map_eq. intros x.
    destruct (decide (x ∈ subscribers s)) as [Hx|Hx].
    + destruct (Hok x Hx) as (sub & Hsub & _).
      destruct (Hin1 x sub Hx Hsub) as [-> _].
      destruct (Hin2 x sub Hx Hsub) as [-> _]. done.
    + destruct (Hout1 x Hx) as [_ ->]. destruct (Hout2 x Hx) as [_ ->]. done.
Qed.

(** [publishMsg] keeps the invariant of the registry. *)
Lemma publishMsg_registry_ok msg s s' :
  registry_ok s → publishMsg msg s = Ok s' → registry_ok s'.
Proof.
  intros Hok Hrun.
  destruct (publishMsg_range_spec msg _ s Hok (range_order_elements s))
    as (s1 & Hrun1 & _ & Hin & Hout).
  unfold publishMsg in Hrun. rewrite Hrun in Hrun1. injection Hrun1 as <-.
  intros x Hx.
  destruct (decide (x ∈ subscribers s)) as [Hxs|Hxs].
  - destruct (Hok x Hxs) as (sub & Hsub & Hc).
    destruct (Hin x sub Hxs Hsub) as [Ho Hm].
    exists (delivered msg sub). split; [done|].
    apply Hm in Hx. unfold delivered. by rewrite bool_decide_eq_true_2.
  - by destruct (Hout x Hxs) as [? _].
Qed.

(** C1.  For every call of publish and every subscriber registered at the
    time of the call, in whatever order the members are visited: the call
    ends without a panic; a subscriber whose outbox has free capacity gets
    the payload at the end of its outbox and stays a member; a subscriber
    whose outbox is full is removed from the membership set and its outbox
    is closed; nothing but the members' outboxes is touched.  The enqueue is
    a select with a default case, so no visit waits for a subscriber. *)
Theorem publish_enqueues_or_evicts (msg : Payload) (keys : list loc) (s : Server) :
  registry_ok s → range_order s keys →
  ∃ s', publishMsg_range msg keys s = Ok s' ∧
    (∀ x sub, x ∈ subscribers s → objects s !! x = Some sub →
       (has_room (msgs sub) →
          x ∈ subscribers s' ∧
          objects s' !! x = Some (set_msgs (enqueue msg (msgs sub)) sub)) ∧
       (¬ has_room (msgs sub) →
          (x ∉ subscribers s') ∧
          objects s' !! x = Some (set_msgs (closed_chan (msgs sub)) sub))) ∧
    (∀ x, x ∉ subscribers s →
       (x ∉ subscribers s') ∧ objects s' !! x = objects s !! x).
Proof.
  intros Hok Hord.
  destruct (publishMsg_range_spec msg keys s Hok Hord)
    as (s' & Hrun & _ & Hin & Hout).
  exists s'. split_and!; [done| |done].
  intros x sub Hx Hsub. destruct (Hin x sub Hx Hsub) as [Ho Hm].
  unfold delivered in Ho. split; intros Hroom.
  - rewrite bool_decide_eq_true_2 in Ho by done. by rewrite Hm.
  - rewrite bool_decide_eq_false_2 in Ho by done. by rewrite Hm.
Qed.

Lemma registry_okb_spec s : registry_okb s = true → registry_ok s.
Proof.
  unfold registry_okb, registry_ok. rewrite forallb_forall.
  intros H x Hx. specialize (H x).
  destruct (objects s !! x) as [sub|].
  - exists sub. split; [done|]. apply negb_true_iff, H.
    by apply list_elem_of_In, elem_of_elements.
  - exfalso. apply diff_false_true, H.
    by apply list_elem_of_In, elem_of_elements.
Qed.

Lemma publish_enqueues_or_evicts_witness :
  let s := {| subscriberMessageBuffer := 2;
              subscribers := {[0%nat; 1%nat]};
              objects :=
                {[ 0%nat := {| msgs := {| buf := [payload "p1"; payload "p2"];
                                          cap := 2; closed := false |};
                               conn := [] |};
                   1%nat := {| msgs := make_chan 2; conn := [] |} ]} |} in
  ∃ s', publishMsg (payload "p3") s = Ok s' ∧
    subscribers s' = {[1%nat]} ∧
    objects s' !! 0%nat =
      Some {| msgs := {| buf := [payload "p1"; payload "p2"];
                         cap := 2; closed := true |};
              conn := [] |} ∧
    objects s' !! 1%nat =
      Some {| msgs := {| buf := [payload "p3"]; cap := 2; closed := false |};
              conn := [] |}.
Proof.
  intros s.
  destruct (publish_enqueues_or_evicts (payload "p3") (elements (subscribers s)) s)
    as (s' & Hrun & Hin & Hout).
  - apply registry_okb_spec. vm_compute. reflexivity.
  - apply range_order_elements.
  - exists s'. split; [exact Hrun|].
    destruct (Hin 0%nat _ ltac:(set_solver) eq_refl) as [_ H0].
    destruct (Hin 1%nat _ ltac:(set_solver) eq_refl) as [H1 _].
    destruct H0 as [H0m H0o]; [vm_compute; lia|].
    destruct H1 as [H1m H1o]; [vm_compute; lia|].
    split_and!; [|exact H0o|exact H1o].
    apply set_eq. intros x. destruct (decide (x ∈ subscribers s)) as [Hx|Hx].
    + assert (x = 0%nat ∨ x = 1%nat) as [->| ->] by set_solver; set_solver.
    + destruct (Hout x Hx). set_solver.
Defined.

(** * Properties of the connection handler *)

Lemma payloads_app c1 c2 : payloads (c1 ++ c2) = payloads c1 ++ payloads c2.
Proof.
  induction c1 as [|[m|] c1 IH]; simpl; [done| |done]. by rewrite IH.
Qed.

(** Receiving never reopens a channel and only takes from the front. *)
Lemma served_closed ok sub : closed (msgs (served ok sub)) = closed (msgs sub).
Proof.
  unfold served, select_recv.
  destruct (buf (msgs sub)); simpl; [|done].
  destruct (closed (msgs sub)) eqn:Hc; simpl; by rewrite Hc.
Qed.

Lemma served_buf ok sub : buf (msgs (served ok sub)) = tail (buf (msgs sub)).
Proof.
  unfold served, select_recv.
  destruct (buf (msgs sub)) eqn:Hb; simpl; [|done].
  destruct (closed (msgs sub)) eqn:Hc; simpl; by rewrite Hb.
Qed.

(** While the outbox is open, a successful iteration moves its oldest
    payload, if any, to the connection. *)
Lemma served_stream sub :
  closed (msgs sub) = false →
  payloads (conn (served true sub)) ++ buf (msgs (served true sub)) =
  payloads (conn sub) ++ buf (msgs sub).
Proof.
  intros Hc. unfold served, select_recv.
  destruct (buf (msgs sub)) as [|m rest] eqn:Hb; [rewrite Hc|]; simpl;
    rewrite payloads_app; simpl.
  - rewrite Hb. by rewrite !app_nil_r.
  - by rewrite <- app_assoc.
Qed.

Lemma websocketHandler_body_spec ok x s sub :
  objects s !! x = Some sub →
  websocketHandler_body ok x s =
    Ok (if ok then Continue else Return, set_object x (served ok sub) s).
Proof.
  intros Hx. unfold websocketHandler_body, served. rewrite Hx. simpl.
  destruct (select_recv (msgs sub)) as [[msg ch]|]; destruct ok; done.
Qed.

(** An iteration whose write succeeds goes on. *)
Lemma websocketHandler_step_ok x s sub :
  objects s !! x = Some sub →
  websocketHandler_step true x s =
    Ok (Continue, set_object x (served true sub) s).
Proof.
  intros Hx. unfold websocketHandler_step.
  by rewrite (websocketHandler_body_spec _ _ _ _ Hx).
Qed.

(** An iteration whose write fails returns, and the deferred
    [removeSubscriber] unregisters the subscriber: it leaves the membership
    set and its outbox, open until then, is closed. *)
Lemma websocketHandler_step_failed x s sub :
  objects s !! x = Some sub → closed (msgs sub) = false →
  websocketHandler_step false x s =
    Ok (Return,
        set_object x (set_msgs (closed_chan (msgs (served false sub)))
                               (served false sub))
          (set_subscribers (subscribers s ∖ {[x]}) s)).
Proof.
  intros Hx Hc. unfold websocketHandler_step.
  rewrite (websocketHandler_body_spec _ _ _ _ Hx). simpl.
  unfold removeSubscriber. simpl. rewrite lookup_insert_eq. simpl.
  rewrite close_open by by rewrite served_closed. simpl.
  unfold set_object, set_subscribers. simpl. by rewrite insert_insert_eq.
Qed.

(** When the outbox is closed already, the deferred call panics. *)
Lemma websocketHandler_step_failed_closed x s sub :
  objects s !! x = Some sub → closed (msgs sub) = true →
  websocketHandler_step false x s = Panic CloseOfClosedChannel.
Proof.
  intros Hx Hc. unfold websocketHandler_step.
  rewrite (websocketHandler_body_spec _ _ _ _ Hx). simpl.
  unfold removeSubscriber. simpl. rewrite lookup_insert_eq. simpl.
  by rewrite close_closed by by rewrite served_closed.
Qed.

(** Whatever an iteration of the handler of [x] does, it does to [x]. *)
Lemma websocketHandler_step_inv ok x s c s' :
  websocketHandler_step ok x s = Ok (c, s') →
  ∃ sub, objects s !! x = Some sub ∧
    (ok = false → closed (msgs sub) = false) ∧
    c = (if ok then Continue else Return) ∧
    subscriberMessageBuffer s' = subscriberMessageBuffer s ∧
    subscribers s' = (if ok then subscribers s else subscribers s ∖ {[x]}) ∧
    objects s' =
      <[x := if ok then served true sub
             else set_msgs (closed_chan (msgs (served false sub)))
                           (served false sub)]> (objects s).
Proof.
  intros H. destruct (objects s !! x) as [sub|] eqn:Hx.
  - exists sub. split; [done|]. destruct ok.
    + rewrite (websocketHandler_step_ok _ _ _ Hx) in H. by simplify_eq.
    + destruct (closed (msgs sub)) eqn:Hc.
      * by rewrite (websocketHandler_step_failed_closed _ _ _ Hx Hc) in H.
      * rewrite (websocketHandler_step_failed _ _ _ Hx Hc) in H. by simplify_eq.
  - unfold websocketHandler_step, websocketHandler_body in H.
    by rewrite Hx in H.
Qed.

(** * Properties of executions *)

Lemma websocketHandler_enter_fresh s :
  (websocketHandler_enter s).1 ∉ dom (objects s).
Proof. simpl. apply is_fresh. Qed.

Lemma removeSubscriber_inv x s s' :
  removeSubscriber x s = Ok s' →
  ∃ sub, objects s !! x = Some sub ∧ closed (msgs sub) = false ∧
    subscriberMessageBuffer s' = subscriberMessageBuffer s ∧
    subscribers s' = subscribers s ∖ {[x]} ∧
    objects s' = <[x := set_msgs (closed_chan (msgs sub)) sub]> (objects s).
Proof.
  unfold removeSubscriber. simpl. intros H.
  destruct (objects s !! x) as [sub|]; simpl in H; [|done].
  exists sub. unfold close in H.
  destruct (closed (msgs sub)); simpl in H; [done|]. by simplify_eq.
Qed.

(** Every key the range loop visits without a panic is allocated. *)
Lemma publishMsg_range_allocated msg keys : ∀ s s',
  publishMsg_range msg keys s = Ok s' →
  ∀ x, x ∈ keys → x ∈ dom (objects s).
Proof.
  induction keys as [|k keys IH]; intros s s' H x Hx; simpl in H.
  - by apply elem_of_nil in Hx.
  - destruct (publishMsg_body msg s k) as [s1|] eqn:Hb; simpl in H; [|done].
    apply elem_of_cons in Hx as [->|Hx].
    + unfold publishMsg_body in Hb. apply elem_of_dom.
      destruct (objects s !! k); [done|]. done.
    + apply publishMsg_body_frame in Hb as (_ & <- & _). by eapply IH.
Qed.

(** Both ways leave the subscriber allocated and out of the membership set. *)
Lemma unregisters_spec x s s' :
  unregisters x s s' → (x ∉ subscribers s') ∧ is_Some (objects s' !! x).
Proof.
  intros [H|msg Hx H Hx'].
  - apply removeSubscriber_inv in H as (sub & _ & _ & _ & -> & ->).
    split; [set_solver|]. rewrite lookup_insert_eq. eauto.
  - split; [done|]. apply elem_of_dom.
    unfold publishMsg in H.
    apply publishMsg_range_frame in H as Hfr. destruct Hfr as (_ & -> & _).
    eapply publishMsg_range_allocated; [done|]. by apply elem_of_elements.
Qed.

(** A step never enqueues into the outbox of a subscriber that is
    allocated and not a member, and never makes it a member. *)
Lemma step_unregistered e s s' x sub :
  step e s = Ok s' →
  objects s !! x = Some sub → x ∉ subscribers s →
  (x ∉ subscribers s') ∧
  ∃ sub', objects s' !! x = Some sub' ∧
    buf (msgs sub') `suffix_of` buf (msgs sub).
Proof.
  intros Hstep Hsub Hx. destruct e as [|y ok|msg]; simpl in Hstep.
  - injection Hstep as <-. simpl.
    assert (fresh (dom (objects s)) ≠ x) as Hne.
    { intros <-. apply (is_fresh (dom (objects s))), elem_of_dom. eauto. }
    split; [set_solver|]. exists sub. by rewrite lookup_insert_ne.
  - destruct (websocketHandler_step ok y s) as [[c s1]|] eqn:Hw;
      simpl in Hstep; [|done].
    injection Hstep as ->.
    apply websocketHandler_step_inv in Hw
      as (suby & Hy & _ & _ & _ & Hm & Ho).
    split; [destruct ok; set_solver|]. rewrite Ho.
    destruct (decide (y = x)) as [->|Hne].
    + rewrite lookup_insert_eq. eexists. split; [done|].
      assert (suby = sub) as -> by congruence.
      destruct ok; simpl; rewrite served_buf;
        destruct (buf (msgs sub)); simpl; [done|by apply suffix_cons_r|done
                                           |by apply suffix_cons_r].
    + rewrite lookup_insert_ne by done. by exists sub.
  - apply publishMsg_range_frame in Hstep as (_ & _ & _ & Hfr).
    destruct (Hfr x) as [Ho Hm]; [by rewrite elem_of_elements|].
    split; [by rewrite Hm|]. exists sub. by rewrite Ho.
Qed.

Lemma run_unregistered t : ∀ s s' x sub,
  run t s = Ok s' →
  objects s !! x = Some sub → x ∉ subscribers s →
  (x ∉ subscribers s') ∧
  ∃ sub', objects s' !! x = Some sub' ∧
    buf (msgs sub') `suffix_of` buf (msgs sub).
Proof.
  induction t as [|e t IH]; intros s s' x sub Hrun Hsub Hx; simpl in Hrun.
  - injection Hrun as <-. split; [done|]. by exists sub.
  - destruct (step e s) as [s1|] eqn:Hstep; simpl in Hrun; [|done].
    destruct (step_unregistered _ _ _ _ _ Hstep Hsub Hx)
      as (Hx1 & sub1 & Hsub1 & Hsuf1).
    destruct (IH _ _ _ _ Hrun Hsub1 Hx1) as (Hx' & sub' & Hsub' & Hsuf').
    split; [done|]. exists sub'. split; [done|]. by etrans.
Qed.

(** C3.  Once a subscriber has been unregistered, explicitly or by
    eviction, then along every execution that follows it never becomes a
    member again, nothing is ever added to its outbox, and every later
    publish leaves the subscriber as it finds it. *)
Theorem no_enqueue_after_unregister
    (x : loc) (s0 s s' : Server) (t : list Event) :
  unregisters x s0 s →
  run t s = Ok s' →
  (x ∉ subscribers s') ∧
  (∃ sub sub', objects s !! x = Some sub ∧ objects s' !! x = Some sub' ∧
     buf (msgs sub') `suffix_of` buf (msgs sub)) ∧
  (∀ msg s'', publishMsg msg s' = Ok s'' →
     objects s'' !! x = objects s' !! x ∧ x ∉ subscribers s'').
Proof.
  intros Hun Hrun.
  apply unregisters_spec in Hun as [Hx [sub Hsub]].
  destruct (run_unregistered _ _ _ _ _ Hrun Hsub Hx) as (Hx' & sub' & Hsub' & Hsuf).
  split_and!; [done|by exists sub, sub'|].
  intros msg s'' Hp.
  apply publishMsg_range_frame in Hp as (_ & _ & _ & Hfr).
  destruct (Hfr x) as [Ho Hm]; [by rewrite elem_of_elements|].
  split; [done|by rewrite Hm].
Qed.

(** Closed goals about concrete servers are settled by evaluation. *)
Ltac by_evaluation :=
  lazymatch goal with
  | |- _ = _ => vm_compute; reflexivity
  | |- _ => compute_done
  end.

Lemma no_enqueue_after_unregister_witness :
  let full := {| buf := [payload "p1"; payload "p2"]; cap := 2; closed := false |} in
  let s0 := {| subscriberMessageBuffer := 2;
               subscribers := {[0%nat]};
               objects := {[ 0%nat := {| msgs := full; conn := [] |} ]} |} in
  let s := {| subscriberMessageBuffer := 2;
              subscribers := ∅;
              objects := {[ 0%nat := {| msgs := closed_chan full; conn := [] |} ]} |} in
  let s' := {| subscriberMessageBuffer := 2;
               subscribers := ∅;
               objects :=
                 {[ 0%nat := {| msgs := {| buf := [payload "p2"]; cap := 2;
                                           closed := true |};
                                conn := [TextMessage (payload "p1")] |} ]} |} in
  (0%nat ∉ subscribers s') ∧
  (∃ sub sub', objects s !! 0%nat = Some sub ∧ objects s' !! 0%nat = Some sub' ∧
     buf (msgs sub') `suffix_of` buf (msgs sub)) ∧
  (∀ msg s'', publishMsg msg s' = Ok s'' →
     objects s'' !! 0%nat = objects s' !! 0%nat ∧ 0%nat ∉ subscribers s'').
Proof.
  intros full s0 s s'.
  apply (no_enqueue_after_unregister 0%nat s0 s s'
           [Publish (payload "p4"); Write 0%nat true; Publish (payload "p5")]).
  - apply (unregisters_by_eviction _ _ _ (payload "p3")); by_evaluation.
  - by_evaluation.
Defined.

(** The invariant of the registry holds at start and along every execution. *)
Lemma NewServer_registry_ok : registry_ok NewServer.
Proof. intros x Hx. by apply not_elem_of_empty in Hx. Qed.

Lemma step_registry_ok e s s' :
  registry_ok s → step e s = Ok s' → registry_ok s'.
Proof.
  intros Hok Hstep. destruct e as [|y ok|msg]; simpl in Hstep.
  - injection Hstep as <-. intros x Hx. simpl in *.
    destruct (decide (x = fresh (dom (objects s)))) as [->|Hne].
    + rewrite lookup_insert_eq. eauto.
    + rewrite lookup_insert_ne by done. apply Hok. set_solver.
  - destruct (websocketHandler_step ok y s) as [[c s1]|] eqn:Hw;
      simpl in Hstep; [|done].
    injection Hstep as ->.
    apply websocketHandler_step_inv in Hw
      as (suby & Hy & _ & _ & _ & Hm & Ho).
    intros x Hx. rewrite Ho, Hm in *.
    destruct (decide (y = x)) as [->|Hne].
    + destruct ok; [|set_solver]. rewrite lookup_insert_eq.
      destruct (Hok x Hx) as (sub & Hsub & Hc). simplify_eq.
      eexists. split; [done|]. by rewrite served_closed.
    + rewrite lookup_insert_ne by done. apply Hok. destruct ok; set_solver.
  - by eapply publishMsg_registry_ok.
Qed.

Lemma run_registry_ok t : ∀ s s',
  registry_ok s → run t s = Ok s' → registry_ok s'.
Proof.
  induction t as [|e t IH]; intros s s' Hok Hrun; simpl in Hrun.
  - by injection Hrun as <-.
  - destruct (step e s) as [s1|] eqn:Hstep; simpl in Hrun; [|done].
    eapply IH; [|done]. by eapply step_registry_ok.
Qed.

(** One step, seen from a subscriber that is a member after it: it was a
    member before, and what it has written and what waits in its outbox
    grew by exactly what the step published. *)
Lemma step_member_stream e s s' x sub :
  registry_ok s → step e s = Ok s' →
  objects s !! x = Some sub → x ∈ subscribers s' →
  x ∈ subscribers s ∧
  ∃ sub', objects s' !! x = Some sub' ∧
    payloads (conn sub') ++ buf (msgs sub') =
    (payloads (conn sub) ++ buf (msgs sub)) ++ published [e].
Proof.
  intros Hok Hstep Hsub Hx'. destruct e as [|y ok|msg]; simpl in Hstep.
  - injection Hstep as <-. simpl in *.
    assert (x ≠ fresh (dom (objects s))) as Hne.
    { intros ->. apply (is_fresh (dom (objects s))), elem_of_dom. eauto. }
    split; [set_solver|]. exists sub.
    rewrite lookup_insert_ne by done. by rewrite app_nil_r.
  - destruct (websocketHandler_step ok y s) as [[c s1]|] eqn:Hw;
      simpl in Hstep; [|done].
    injection Hstep as ->.
    apply websocketHandler_step_inv in Hw
      as (suby & Hy & _ & _ & _ & Hm & Ho).
    rewrite Hm in Hx'. rewrite Ho. simpl. rewrite app_nil_r.
    assert (x ∈ subscribers s) as Hx by (destruct ok; set_solver).
    split; [done|].
    destruct (decide (y = x)) as [->|Hne].
    + destruct ok; [|set_solver]. rewrite lookup_insert_eq.
      destruct (Hok x Hx) as (sub0 & Hsub0 & Hc). simplify_eq.
      eexists. split; [done|]. by apply served_stream.
    + rewrite lookup_insert_ne by done. by exists sub.
  - destruct (publishMsg_range_spec msg _ s Hok (range_order_elements s))
      as (s1 & Hrun1 & _ & Hin & Hout).
    unfold publishMsg in Hstep. rewrite Hstep in Hrun1. injection Hrun1 as <-.
    destruct (decide (x ∈ subscribers s)) as [Hx|Hx];
      [|by destruct (Hout x Hx)].
    split; [done|]. destruct (Hin x sub Hx Hsub) as [Ho Hroom].
    exists (delivered msg sub). split; [done|].
    apply Hroom in Hx'. unfold delivered.
    rewrite bool_decide_eq_true_2 by done. simpl. by rewrite app_assoc.
Qed.

Lemma published_app t1 t2 : published (t1 ++ t2) = published t1 ++ published t2.
Proof.
  induction t1 as [|[|y ok|msg] t1 IH]; simpl; [done|done|done|]. by rewrite IH.
Qed.

Lemma run_member_stream t : ∀ s s' x sub,
  registry_ok s → run t s = Ok s' →
  objects s !! x = Some sub → x ∈ subscribers s' →
  x ∈ subscribers s ∧
  ∃ sub', objects s' !! x = Some sub' ∧
    payloads (conn sub') ++ buf (msgs sub') =
    (payloads (conn sub) ++ buf (msgs sub)) ++ published t.
Proof.
  induction t as [|e t IH]; intros s s' x sub Hok Hrun Hsub Hx'; simpl in Hrun.
  - injection Hrun as <-. split; [done|]. exists sub. by rewrite app_nil_r.
  - destruct (step e s) as [s1|] eqn:Hstep; simpl in Hrun; [|done].
    assert (∃ sub1, objects s1 !! x = Some sub1) as [sub1 Hsub1].
    { destruct (decide (x ∈ subscribers s1)) as [Hx1|Hx1].
      - destruct (step_member_stream _ _ _ _ _ Hok Hstep Hsub Hx1)
          as (_ & sub1 & ? & _). eauto.
      - destruct (decide (x ∈ subscribers s)) as [Hx|Hx].
        + destruct e as [|y ok|msg]; simpl in Hstep.
          * injection Hstep as <-. set_solver.
          * destruct (websocketHandler_step ok y s) as [[c s2]|] eqn:Hw;
              simpl in Hstep; [|done].
            injection Hstep as ->.
            apply websocketHandler_step_inv in Hw as (? & ? & _ & _ & _ & _ & Ho).
            rewrite Ho. destruct (decide (y = x)) as [->|Hne].
            -- rewrite lookup_insert_eq. eauto.
            -- rewrite lookup_insert_ne by done. eauto.
          * destruct (publishMsg_range_spec msg _ s Hok (range_order_elements s))
              as (s2 & Hrun2 & _ & Hin & _).
            unfold publishMsg in Hstep. rewrite Hstep in Hrun2.
            injection Hrun2 as <-.
            destruct (Hin x sub Hx Hsub) as [? _]. eauto.
        + destruct (step_unregistered _ _ _ _ _ Hstep Hsub Hx)
            as (_ & sub1 & ? & _). eauto. }
    destruct (IH s1 s' x sub1) as (Hx1 & sub' & Hsub' & Hstream);
      [by eapply step_registry_ok|done|done|done|].
    destruct (step_member_stream _ _ _ _ _ Hok Hstep Hsub Hx1)
      as (Hx & sub1' & Hsub1' & Hstream1).
    simplify_eq. split; [done|]. exists sub'. split; [done|].
    rewrite Hstream, Hstream1.
    change (e :: t) with ([e] ++ t). by rewrite published_app, app_assoc.
Qed.










(** * Unregistering twice, and the loop on a closed outbox *)

Lemma removeSubscriber_closed x s sub :
  objects s !! x = Some sub → closed (msgs sub) = true →
  removeSubscriber x s = Panic CloseOfClosedChannel.
Proof.
  intros Hx Hc. unfold removeSubscriber. simpl. rewrite Hx. simpl.
  by rewrite close_closed.
Qed.

Lemma publishMsg_body_inv msg s k s' :
  publishMsg_body msg s k = Ok s' →
  ∃ sub, objects s !! k = Some sub ∧ closed (msgs sub) = false ∧
    s' = (if bool_decide (has_room (msgs sub))
          then set_object k (set_msgs (enqueue msg (msgs sub)) sub) s
          else set_object k (set_msgs (closed_chan (msgs sub)) sub)
                 (set_subscribers (subscribers s ∖ {[k]}) s)).
Proof.
  intros H. destruct (objects s !! k) as [sub|] eqn:Hk.
  - exists sub. destruct (closed (msgs sub)) eqn:Hc.
    + unfold publishMsg_body, select_send in H. rewrite Hk in H. simpl in H.
      by rewrite Hc in H.
    + rewrite (publishMsg_body_open _ _ _ _ Hk Hc) in H. by simplify_eq.
  - unfold publishMsg_body in H. by rewrite Hk in H.
Qed.

(** A member that the range loop drops has had its outbox closed. *)
Lemma publishMsg_range_evicted msg keys : ∀ s s' x,
  NoDup keys → publishMsg_range msg keys s = Ok s' →
  x ∈ keys → x ∈ subscribers s → x ∉ subscribers s' →
  ∃ sub', objects s' !! x = Some sub' ∧ closed (msgs sub') = true.
Proof.
  induction keys as [|k keys IH]; intros s s' x Hnd H Hk Hx Hx'; simpl in H.
  - by apply elem_of_nil in Hk.
  - apply NoDup_cons in Hnd as [Hnk Hnd].
    destruct (publishMsg_body msg s k) as [s1|] eqn:Hb; simpl in H; [|done].
    apply elem_of_cons in Hk as [->|Hk].
    + apply publishMsg_range_frame in H as (_ & _ & _ & Hfr).
      destruct (Hfr k Hnk) as [-> Hm]. rewrite Hm in Hx'.
      apply publishMsg_body_inv in Hb as (sub & Hsub & Hc & ->).
      case_bool_decide; simpl in *; [done|].
      rewrite lookup_insert_eq. eauto.
    + assert (x ≠ k) as Hne by (intros ->; done).
      apply publishMsg_body_frame in Hb as (_ & _ & _ & Hb).
      destruct (Hb x Hne) as [_ Hm]. eapply IH; [done..|by apply Hm|done].
Qed.

(** However a subscriber got unregistered, its outbox is closed. *)
Lemma unregisters_closed x s s' :
  unregisters x s s' →
  (x ∉ subscribers s') ∧
  ∃ sub', objects s' !! x = Some sub' ∧ closed (msgs sub') = true.
Proof.
  intros [H|msg Hx H Hx'].
  - apply removeSubscriber_inv in H as (sub & _ & _ & _ & -> & ->).
    split; [set_solver|]. rewrite lookup_insert_eq. eauto.
  - split; [done|]. unfold publishMsg in H.
    apply (publishMsg_range_evicted msg (elements (subscribers s)) s s' x);
      [apply NoDup_elements|done|by apply elem_of_elements|done|done].
Qed.

(** C2, as the code has it.  The specification wants a call of unregister on a
    subscriber that is unregistered already, explicitly or by eviction, to
    be a no-op.  In the code the second close of the outbox panics: a direct
    call of removeSubscriber panics, and so does the deferred call made by
    the handler when its write fails after the eviction. *)
Theorem unregister_again_panics (x : loc) (s0 s : Server) :
  unregisters x s0 s →
  removeSubscriber x s = Panic CloseOfClosedChannel ∧
  websocketHandler_step false x s = Panic CloseOfClosedChannel.
Proof.
  intros Hun. apply unregisters_closed in Hun as (_ & sub & Hsub & Hc).
  split.
  - by eapply removeSubscriber_closed.
  - by eapply websocketHandler_step_failed_closed.
Qed.

Lemma unregister_again_panics_witness :
  let s0 := (websocketHandler_enter NewServer).2 in
  let s := {| subscriberMessageBuffer := 10;
              subscribers := ∅;
              objects :=
                {[ 0%nat := {| msgs := closed_chan (make_chan 10);
                               conn := [] |} ]} |} in
  removeSubscriber 0%nat s0 = Ok s ∧
  removeSubscriber 0%nat s = Panic CloseOfClosedChannel ∧
  websocketHandler_step false 0%nat s = Panic CloseOfClosedChannel.
Proof.
  intros s0 s.
  assert (removeSubscriber 0%nat s0 = Ok s) as H by by_evaluation.
  split; [exact H|].
  apply (unregister_again_panics 0%nat s0 s).
  apply unregisters_explicitly. exact H.
Defined.

(** The loop goes on for as long as its writes succeed, whatever the
    state of the outbox: nothing but a failed write makes it return. *)
Lemma websocketHandler_loop_goes_on n : ∀ x s,
  is_Some (objects s !! x) →
  ∃ s', websocketHandler_loop (replicate n true) x s = Ok (Continue, s') ∧
        subscribers s' = subscribers s ∧ is_Some (objects s' !! x).
Proof.
  induction n as [|n IH]; intros x s [sub Hx]; simpl.
  - eauto.
  - rewrite (websocketHandler_step_ok _ _ _ Hx). simpl.
    destruct (IH x (set_object x (served true sub) s)) as (s' & -> & Hm & Ho).
    { simpl. rewrite lookup_insert_eq. eauto. }
    eauto.
Qed.

(** The first failed write makes the loop return, and on an outbox that
    is still open the deferred call unregisters the subscriber; the loop
    does not look at the writes after the failed one. *)
Lemma websocketHandler_loop_stops n rest : ∀ x s sub,
  objects s !! x = Some sub → closed (msgs sub) = false →
  ∃ s', websocketHandler_loop (replicate n true ++ false :: rest) x s
          = Ok (Return, s') ∧
        (x ∉ subscribers s') ∧
        ∃ sub', objects s' !! x = Some sub' ∧ closed (msgs sub') = true.
Proof.
  induction n as [|n IH]; intros x s sub Hx Hc; simpl.
  - rewrite (websocketHandler_step_failed _ _ _ Hx Hc). simpl.
    eexists. split; [done|]. simpl. split; [set_solver|].
    rewrite lookup_insert_eq. eauto.
  - rewrite (websocketHandler_step_ok _ _ _ Hx). simpl.
    destruct (IH x (set_object x (served true sub) s) (served true sub))
      as (s' & -> & Hm & Ho); [by simpl; rewrite lookup_insert_eq
                              |by rewrite served_closed|].
    exists s'. split; [done|]. split; [|done]. done.
Qed.

(** C4, as the code has it.  The specification wants the loop to end cleanly once
    the outbox is closed and drained.  In the code the receive from a closed
    and empty outbox yields a nil payload at once, which the loop writes as a
    text message: after any number of successful writes the loop is still
    running, the subscriber has been sent that many empty text messages, and
    the outbox is as closed and as empty as before. *)
Theorem closed_drained_outbox_keeps_loop_running
    (n : nat) (x : loc) (s : Server) (sub : Subscriber) :
  objects s !! x = Some sub →
  closed (msgs sub) = true → buf (msgs sub) = [] →
  ∃ s', websocketHandler_loop (replicate n true) x s = Ok (Continue, s') ∧
    subscribers s' = subscribers s ∧
    objects s' !! x =
      Some {| msgs := msgs sub;
              conn := conn sub ++ replicate n (TextMessage []) |}.
Proof.
  revert s sub. induction n as [|n IH]; intros s sub Hx Hc Hb; simpl.
  - exists s. split_and!; [done..|]. rewrite app_nil_r. by destruct sub.
  - rewrite (websocketHandler_step_ok _ _ _ Hx). simpl.
    assert (served true sub =
            {| msgs := msgs sub; conn := conn sub ++ [TextMessage []] |}) as Hs.
    { unfold served, select_recv. by rewrite Hb, Hc. }
    destruct (IH (set_object x (served true sub) s) (served true sub))
      as (s' & -> & Hm & Ho).
    { simpl. by rewrite lookup_insert_eq. }
    { by rewrite served_closed. }
    { by rewrite served_buf, Hb. }
    exists s'. split_and!; [done..|].
    rewrite Ho, Hs. simpl. by rewrite <- app_assoc.
Qed.

Lemma closed_drained_outbox_keeps_loop_running_witness :
  let gone := {| msgs := closed_chan (make_chan 10); conn := [] |} in
  let s := {| subscriberMessageBuffer := 10;
              subscribers := ∅;
              objects := {[ 0%nat := gone ]} |} in
  ∃ s', websocketHandler_loop (replicate 3 true) 0%nat s = Ok (Continue, s') ∧
    subscribers s' = subscribers s ∧
    objects s' !! 0%nat =
      Some {| msgs := msgs gone;
              conn := conn gone ++ replicate 3 (TextMessage []) |}.
Proof.
  intros gone s.
  apply (closed_drained_outbox_keeps_loop_running 3 0%nat s gone);
    by_evaluation.
Defined.

(** * The member count *)

Lemma total_length s live :
  NoDup live → (∀ x, x ∈ live ↔ x ∈ subscribers s) →
  total s = length live.
Proof.
  intros Hnd Hin. unfold total, size, set_size. simpl.
  apply Permutation_length, NoDup_Permutation;
    [apply NoDup_elements|done|].
  intros x. by rewrite elem_of_elements, Hin.
Qed.

(** One call keeps the reference list and the membership set in step. *)
Lemma call_members_registered c s live :
  NoDup live → (∀ x, x ∈ live ↔ x ∈ subscribers s) →
  NoDup (registered_step live c) ∧
  ∀ x, x ∈ registered_step live c ↔ x ∈ call_members c s.
Proof.
  intros Hnd Hin. destruct c as [y|y]; simpl.
  - case_bool_decide as Hy.
    + split; [done|]. intros x. rewrite Hin. apply Hin in Hy. set_solver.
    + split; [by apply NoDup_cons|].
      intros x. rewrite elem_of_cons, Hin. set_solver.
  - split; [by apply NoDup_filter|].
    intros x. rewrite list_elem_of_filter, Hin. set_solver.
Qed.

Lemma call_subscribers c s s' :
  call c s = Ok s' → subscribers s' = call_members c s.
Proof.
  destruct c as [y|y]; simpl; intros H.
  - by injection H as <-.
  - by apply removeSubscriber_inv in H as (_ & _ & _ & _ & -> & _).
Qed.

Lemma calls_registered cs : ∀ s s' live,
  NoDup live → (∀ x, x ∈ live ↔ x ∈ subscribers s) →
  calls cs s = Ok s' →
  NoDup (registered cs live) ∧
  ∀ x, x ∈ registered cs live ↔ x ∈ subscribers s'.
Proof.
  induction cs as [|c cs IH]; intros s s' live Hnd Hin Hrun; simpl in Hrun.
  - by injection Hrun as <-.
  - destruct (call c s) as [s1|] eqn:Hc; simpl in Hrun; [|done].
    destruct (call_members_registered c s live Hnd Hin) as [Hnd1 Hin1].
    apply call_subscribers in Hc. rewrite <- Hc in Hin1.
    by apply (IH s1 s' _ Hnd1 Hin1).
Qed.

(** A sequence of calls that unregisters no subscriber twice, and only
    subscribers whose outbox is open, runs without a panic. *)
Lemma calls_no_panic cs : ∀ s,
  NoDup (omap (λ c, match c with Unregister x => Some x | _ => None end) cs) →
  (∀ x, Unregister x ∈ cs →
     ∃ sub, objects s !! x = Some sub ∧ closed (msgs sub) = false) →
  ∃ s', calls cs s = Ok s'.
Proof.
  induction cs as [|c cs IH]; intros s Hnd Hopen; simpl; [eauto|].
  destruct c as [y|y]; simpl in *.
  - apply IH; [done|]. intros x Hx. apply Hopen. by right.
  - apply NoDup_cons in Hnd as [Hy Hnd].
    destruct (Hopen y) as (sub & Hsub & Hc); [by left|].
    unfold removeSubscriber. simpl. rewrite Hsub. simpl.
    rewrite close_open by done. simpl.
    apply IH; [done|]. intros x Hx. simpl.
    rewrite lookup_insert_ne; [apply Hopen; by right|].
    intros ->. apply Hy. apply list_elem_of_omap. by exists (Unregister x).
Qed.

(** C5.  After every sequence of register and unregister calls the count
    of the registry is the number of subscribers registered and not yet
    unregistered, and its members are exactly those subscribers; the total
    that the next call reports is that number once more, one more after the
    register of a subscriber that is not a member, one less after the
    unregister of a member. *)
Theorem member_count_follows_calls
    (cs : list Call) (s s' : Server) (c : Call) (x : loc) :
  calls cs s = Ok s' →
  total s' = length (registered cs (elements (subscribers s))) ∧
  (∀ y, y ∈ subscribers s' ↔ y ∈ registered cs (elements (subscribers s))) ∧
  call_total c s' = length (registered (cs ++ [c]) (elements (subscribers s))) ∧
  (x ∉ subscribers s' → call_total (Register x) s' = S (total s')) ∧
  (x ∈ subscribers s' → S (call_total (Unregister x) s') = total s').
Proof.
  intros Hrun.
  destruct (calls_registered cs s s' (elements (subscribers s))) as [Hnd Hin];
    [apply NoDup_elements|intros y; apply elem_of_elements|done|].
  split_and!.
  - by apply total_length.
  - intros y. by rewrite Hin.
  - unfold registered. rewrite foldl_app. simpl.
    destruct (call_members_registered c s' _ Hnd Hin) as [Hnd1 Hin1].
    unfold call_total, size, set_size. simpl.
    apply Permutation_length, NoDup_Permutation;
      [apply NoDup_elements|done|].
    intros y. by rewrite elem_of_elements, Hin1.
  - intros Hx. unfold call_total. simpl.
    rewrite size_union by set_solver. by rewrite size_singleton.
  - intros Hx. unfold call_total, total. simpl.
    rewrite size_difference by set_solver. rewrite size_singleton.
    assert (size (subscribers s') ≠ 0%nat)
      by (apply size_non_empty_iff; set_solver).
    lia.
Qed.

Lemma member_count_follows_calls_witness :
  let s := (websocketHandler_enter (websocketHandler_enter
             (websocketHandler_enter NewServer).2).2).2 in
  let cs := [Unregister 1%nat; Register 7%nat; Register 7%nat;
             Unregister 0%nat; Register 5%nat] in
  ∃ s', calls cs s = Ok s' ∧ total s' = 3%nat ∧
    (∀ y, y ∈ subscribers s' ↔ y ∈ [5%nat; 7%nat; 2%nat]) ∧
    call_total (Unregister 0%nat) s' = 3%nat ∧
    call_total (Register 4%nat) s' = 4%nat ∧
    call_total (Unregister 7%nat) s' = 2%nat.
Proof.
  intros s cs.
  destruct (calls cs s) as [s'|] eqn:Hrun; [|by vm_compute in Hrun].
  exists s'. split; [reflexivity|].
  destruct (member_count_follows_calls cs s s' (Unregister 0%nat) 4%nat Hrun)
    as (Htot & Hmem & Hrep & Hadd & _).
  destruct (member_count_follows_calls cs s s' (Unregister 0%nat) 7%nat Hrun)
    as (_ & _ & _ & _ & Hdel).
  vm_compute in Hrun. injection Hrun as <-.
  split_and!; [exact Htot|exact Hmem|exact Hrep| |].
  - rewrite Hadd; [by rewrite Htot|]. rewrite Hmem. compute_done.
  - apply eq_add_S. rewrite Hdel; [by rewrite Htot|]. rewrite Hmem. compute_done.
Defined.

(** * The periodic publisher *)

(** With sources that follow the convention, a collector returns, and what
    it returns is a snapshot or an error. *)
Lemma GetSystemInfo_returns os VM HI :
  handlers.source_ok VM → handlers.source_ok HI →
  (∃ si, handlers.GetSystemInfo os VM HI = Ok (Some si, None)) ∨
  (∃ e, handlers.GetSystemInfo os VM HI = Ok (None, Some e)).
Proof.
  unfold handlers.source_ok.
  destruct VM as [vm [e1|]], HI as [hi [e2|]]; simpl; intros Hvm Hhi;
    try (destruct Hvm as [? ->]; [done|]);
    try (destruct Hhi as [? ->]; [done|]); simpl; eauto.
Qed.

Lemma GetDiskInfo_returns DU :
  handlers.source_ok DU →
  (∃ di, handlers.GetDiskInfo DU = Ok (Some di, None)) ∨
  (∃ e, handlers.GetDiskInfo DU = Ok (None, Some e)).
Proof.
  unfold handlers.source_ok.
  destruct DU as [du [e|]]; simpl; intros Hdu;
    try (destruct Hdu as [? ->]; [done|]); simpl; eauto.
Qed.

Lemma GetCPUInfo_returns CI CP :
  (∃ ci, handlers.GetCPUInfo CI CP = Ok (Some ci, None)) ∨
  (∃ e, handlers.GetCPUInfo CI CP = Ok (None, Some e)).
Proof.
  destruct CI as [[|c ci] [e1|]], CP as [cp [e2|]]; simpl; eauto.
Qed.

(** The loop body computes what the specification expects of a cycle. *)
Lemma cycle_expected
    (SystemData : string → string → string → Z → Z → Z → float → Component)
    (DiskData : Z → Z → Z → float → Component)
    (CPUData : string → string → float → list float → Component)
    (StatusUpdate : string → Component) (io : Tick) :
  tick_sources_ok io →
  cycle SystemData DiskData CPUData StatusUpdate io =
    Ok (expected_publication SystemData DiskData CPUData StatusUpdate io).
Proof.
  intros (Hvm & Hhi & Hdu). unfold cycle, expected_publication.
  destruct (GetSystemInfo_returns (GOOS io) _ _ Hvm Hhi) as [[si ->]|[e ->]];
    simpl; [|done].
  destruct (GetDiskInfo_returns _ Hdu) as [[di ->]|[e ->]]; simpl; [|done].
  destruct (GetCPUInfo_returns (cpuInfo io) (Percent io)) as [[ci ->]|[e ->]];
    simpl; [|done].
  destruct (SystemData _ _ _ _ _ _ _ _) as [systemBuf [e|]]; simpl; [done|].
  destruct (DiskData _ _ _ _ _) as [diskBuf [e|]]; simpl; [done|].
  destruct (CPUData _ _ _ _ _) as [cpuBuf [e|]]; simpl; [done|].
  destruct (StatusUpdate _ _) as [statusBuf [e|]]; simpl; done.
Qed.

(** C7.  In every cycle of the publisher, a failure of a collection step
    or of a render step means that publish is not called and the server is
    left as it is, and the loop goes on with the next tick; a cycle in which
    every step succeeds calls publish exactly once, with the one rendered
    payload.  Over any sequence of ticks, a registry that records its calls
    ends up with exactly one payload for each successful cycle, in order. *)
Theorem publisher_publishes_once_or_skips
    {St : Type} (publish : Payload → St → Result St)
    (SystemData : string → string → string → Z → Z → Z → float → Component)
    (DiskData : Z → Z → Z → float → Component)
    (CPUData : string → string → float → list float → Component)
    (StatusUpdate : string → Component)
    (io : Tick) (ticks : list Tick) (s : St) (log : list Payload) :
  tick_sources_ok io → Forall tick_sources_ok ticks →
  startDataPublisher_tick publish SystemData DiskData CPUData StatusUpdate io s =
    match expected_publication SystemData DiskData CPUData StatusUpdate io with
    | Some msg => publish msg s
    | None => Ok s
    end ∧
  startDataPublisher publish SystemData DiskData CPUData StatusUpdate (io :: ticks) s =
    match expected_publication SystemData DiskData CPUData StatusUpdate io with
    | Some msg =>
      s' ← publish msg s;
      startDataPublisher publish SystemData DiskData CPUData StatusUpdate ticks s'
    | None =>
      startDataPublisher publish SystemData DiskData CPUData StatusUpdate ticks s
    end ∧
  startDataPublisher record_publish SystemData DiskData CPUData StatusUpdate ticks log =
    Ok (log ++ omap (expected_publication SystemData DiskData CPUData StatusUpdate) ticks).
Proof.
  intros Hio Hticks.
  assert (∀ io s, tick_sources_ok io →
    startDataPublisher_tick publish SystemData DiskData CPUData StatusUpdate io s =
    match expected_publication SystemData DiskData CPUData StatusUpdate io with
    | Some msg => publish msg s
    | None => Ok s
    end) as Htick.
  { intros io' s' Hio'. unfold startDataPublisher_tick.
    by rewrite cycle_expected. }
  split_and!.
  - by apply Htick.
  - simpl. rewrite Htick by done.
    by destruct (expected_publication _ _ _ _ io).
  - clear Htick. revert log.
    induction Hticks as [|io' ticks' Hio' _ IH]; intros log; simpl.
    + by rewrite app_nil_r.
    + unfold startDataPublisher_tick. rewrite cycle_expected by done. simpl.
      destruct (expected_publication _ _ _ _ io') as [msg|]; simpl.
      * rewrite IH. by rewrite <- app_assoc.
      * apply IH.
Qed.

(** A cycle is expected to publish exactly when all seven steps succeed. *)
Lemma expected_publication_Some
    (SystemData : string → string → string → Z → Z → Z → float → Component)
    (DiskData : Z → Z → Z → float → Component)
    (CPUData : string → string → float → list float → Component)
    (StatusUpdate : string → Component) (io : Tick) (msg : Payload) :
  expected_publication SystemData DiskData CPUData StatusUpdate io = Some msg ↔
  ∃ si di ci systemBuf diskBuf cpuBuf statusBuf,
    handlers.GetSystemInfo (GOOS io) (VirtualMemory io) (hostInfo io)
      = Ok (Some si, None) ∧
    handlers.GetDiskInfo (Usage io) = Ok (Some di, None) ∧
    handlers.GetCPUInfo (cpuInfo io) (Percent io) = Ok (Some ci, None) ∧
    SystemData (handlers.SystemInfo.OS si) (handlers.SystemInfo.Platform si)
      (handlers.SystemInfo.Hostname si) (handlers.SystemInfo.Procs si)
      (handlers.SystemInfo.TotalMem si) (handlers.SystemInfo.FreeMem si)
      (handlers.SystemInfo.UsedPercent si) EmptyString = (systemBuf, None) ∧
    DiskData (handlers.DiskInfo.Total di) (handlers.DiskInfo.Used di)
      (handlers.DiskInfo.Free di) (handlers.DiskInfo.UsedPercent di)
      EmptyString = (diskBuf, None) ∧
    CPUData (handlers.CPUInfo.ModelName ci) (handlers.CPUInfo.Family ci)
      (handlers.CPUInfo.Mhz ci) (handlers.CPUInfo.Percentages ci)
      EmptyString = (cpuBuf, None) ∧
    StatusUpdate (Now io) EmptyString = (statusBuf, None) ∧
    msg = String.list_byte_of_string
            (Sprintf_msg statusBuf systemBuf cpuBuf diskBuf).
Proof.
  unfold expected_publication.
  destruct (handlers.GetSystemInfo _ _ _) as [[[si|] [e1|]]|p1];
    try (split; [done|intros (?&?&?&?&?&?&?&?&_); done]).
  destruct (handlers.GetDiskInfo _) as [[[di|] [e2|]]|p2];
    try (split; [done|intros (?&?&?&?&?&?&?&_&?&_); done]).
  destruct (handlers.GetCPUInfo _ _) as [[[ci|] [e3|]]|p3];
    try (split; [done|intros (?&?&?&?&?&?&?&_&_&?&_); done]).
  destruct (SystemData _ _ _ _ _ _ _ _) as [systemBuf e4] eqn:H4.
  destruct (DiskData _ _ _ _ _) as [diskBuf e5] eqn:H5.
  destruct (CPUData _ _ _ _ _) as [cpuBuf e6] eqn:H6.
  destruct (StatusUpdate _ _) as [statusBuf e7] eqn:H7. simpl.
  split.
  - intros H. exists si, di, ci, systemBuf, diskBuf, cpuBuf, statusBuf.
    destruct e4, e5, e6, e7; try done. by simplify_eq.
  - intros (si'&di'&ci'&b1&b2&b3&b4&?&?&?&E4&E5&E6&E7&->). simplify_eq.
    rewrite H4 in E4. rewrite H5 in E5. rewrite H6 in E6. by simplify_eq.
Qed.

Ltac sources_ok :=
  unfold tick_sources_ok, handlers.source_ok; simpl;
  split_and!; first [discriminate | intros _; eauto].

Lemma publisher_publishes_once_or_skips_witness :
  let run_with status ticks :=
    startDataPublisher record_publish plain_SystemData plain_DiskData
      plain_CPUData status ticks [] in
  (∃ msg, run_with plain_StatusUpdate [good_tick; disk_failure_tick; good_tick]
          = Ok [msg; msg]) ∧
  run_with failing_StatusUpdate [good_tick; good_tick] = Ok [].
Proof.
  intros run_with. split.
  - destruct (publisher_publishes_once_or_skips record_publish
                plain_SystemData plain_DiskData plain_CPUData plain_StatusUpdate
                good_tick [good_tick; disk_failure_tick; good_tick] [] [])
      as (_ & _ & H).
    + sources_ok.
    + repeat (apply Forall_cons; split; [sources_ok|]). by apply Forall_nil.
    + subst run_with. cbv beta. rewrite H. eexists. vm_compute. reflexivity.
  - destruct (publisher_publishes_once_or_skips record_publish
                plain_SystemData plain_DiskData plain_CPUData failing_StatusUpdate
                good_tick [good_tick; good_tick] [] [])
      as (_ & _ & H).
    + sources_ok.
    + repeat (apply Forall_cons; split; [sources_ok|]). by apply Forall_nil.
    + subst run_with. cbv beta. rewrite H. vm_compute. reflexivity.
Defined.

(** * The scenarios of the specification, evaluated *)

(** The handler of a fresh connection returns at the first failed write
    and leaves its subscriber unregistered. *)
Lemma websocketHandler_returns_at_failure n rest s :
  ∃ s', websocketHandler (replicate n true ++ false :: rest) s = Ok (Return, s') ∧
    (websocketHandler_enter s).1 ∉ subscribers s'.
Proof.
  unfold websocketHandler.
  destruct (websocketHandler_enter s) as [x s1] eqn:He.
  destruct (websocketHandler_loop_stops n rest x s1
              {| msgs := make_chan (subscriberMessageBuffer s); conn := [] |})
    as (s' & Hrun & Hx & _).
  - injection He as <- <-. simpl. by rewrite lookup_insert_eq.
  - done.
  - exists s'. by split.
Qed.

(** Scenario A: three subscribers, five payloads, each handler drains its
    outbox: all three received the five payloads in order. *)
Example scenario_A :
  let ps := payload <$> ["p1"; "p2"; "p3"; "p4"; "p5"]%string in
  let drain x := replicate 5 (Write x true) in
  ∃ s, run ([Connect; Connect; Connect] ++ (Publish <$> ps)
            ++ drain 0%nat ++ drain 1%nat ++ drain 2%nat) NewServer = Ok s ∧
    subscribers s = {[0%nat; 1%nat; 2%nat]} ∧
    ∀ x, x ∈ subscribers s →
      objects s !! x = Some {| msgs := make_chan 10; conn := TextMessage <$> ps |}.
Proof.
  intros ps drain. eexists. split; [vm_compute; reflexivity|].
  split; [vm_compute; reflexivity|].
  intros x Hx.
  assert (x ∈ ({[0%nat; 1%nat; 2%nat]} : gset nat)) as Hx'
    by (revert Hx; vm_compute; done).
  assert (x = 0%nat ∨ x = 1%nat ∨ x = 2%nat) as [->|[->| ->]]
    by set_solver; vm_compute; reflexivity.
Qed.

(** Scenario B: a subscriber with capacity 2 that never drains is evicted
    by the third publish and its outbox is closed. *)
Example scenario_B :
  run [Connect; Publish (payload "p1"); Publish (payload "p2");
       Publish (payload "p3")] small_server =
  Ok {| subscriberMessageBuffer := 2;
        subscribers := ∅;
        objects :=
          {[ 0%nat := {| msgs := {| buf := [payload "p1"; payload "p2"];
                                    cap := 2; closed := true |};
                         conn := [] |} ]} |}.
Proof. by_evaluation. Qed.

(** Scenario C: register, unregister, publish: no panic, and the outbox
    stays closed and empty. *)
Example scenario_C :
  (s ← removeSubscriber 0%nat (websocketHandler_enter NewServer).2;
   publishMsg (payload "p1") s) =
  Ok {| subscriberMessageBuffer := 10;
        subscribers := ∅;
        objects :=
          {[ 0%nat := {| msgs := closed_chan (make_chan 10); conn := [] |} ]} |}.
Proof. by_evaluation. Qed.

(** After the eviction of scenario B, a failed write of the handler runs
    into the second close. *)
Example eviction_then_failed_write :
  run [Connect; Publish (payload "p1"); Publish (payload "p2");
       Publish (payload "p3"); Write 0%nat false] small_server =
  Panic CloseOfClosedChannel.
Proof. by_evaluation. Qed.

(** * Further properties: invariants of the running program *)

(** X1.  In every state the program reaches from NewServer every member
    of the registry is an allocated subscriber whose outbox is open, a
    subscriber whose outbox is closed is never a member, and the total of
    the registry is at most the number of open outboxes.  The converse is
    not stated: an outbox can be open without its subscriber being a member,
    since removeSubscriber closes the outbox only after it has unlocked and
    a handler allocates its subscriber before it registers it. *)
Theorem members_have_open_outboxes (t : list Event) (s : Server) :
  run t NewServer = Ok s →
  (∀ x, x ∈ subscribers s →
     ∃ sub, objects s !! x = Some sub ∧ closed (msgs sub) = false) ∧
  (∀ x sub, objects s !! x = Some sub → closed (msgs sub) = true →
     x ∉ subscribers s) ∧
  (total s ≤ size (open_outboxes s))%nat.
Proof.
  intros Hrun.
  assert (registry_ok s) as Hok
    by (eapply run_registry_ok; [apply NewServer_registry_ok|done]).
  split_and!.
  - done.
  - intros x sub Hsub Hc Hx. destruct (Hok x Hx) as (sub' & ? & ?). congruence.
  - unfold total. rewrite <- (size_dom (open_outboxes s)).
    apply subseteq_size. intros x Hx.
    destruct (Hok x Hx) as (sub & Hsub & Hc).
    apply elem_of_dom. exists sub. by apply map_lookup_filter_Some.
Qed.

Lemma members_have_open_outboxes_witness :
  let t := [Connect; Connect; Publish (payload "p1"); Write 0%nat false;
            Connect; Write 2%nat true] in
  ∃ s, run t NewServer = Ok s ∧
    (∀ x, x ∈ subscribers s →
       ∃ sub, objects s !! x = Some sub ∧ closed (msgs sub) = false) ∧
    (∀ x sub, objects s !! x = Some sub → closed (msgs sub) = true →
       x ∉ subscribers s) ∧
    (total s ≤ size (open_outboxes s))%nat ∧ total s = 2%nat.
Proof.
  intros t.
  destruct (run t NewServer) as [s|] eqn:Hrun; [|by vm_compute in Hrun].
  exists s. split; [reflexivity|].
  destruct (members_have_open_outboxes t s Hrun) as (Hmem & Hcl & Htot).
  split_and!; [exact Hmem|exact Hcl|exact Htot|].
  vm_compute in Hrun. injection Hrun as <-. vm_compute. reflexivity.
Defined.



(** * Further properties: backpressure *)

Lemma served_cap ok sub : cap (msgs (served ok sub)) = cap (msgs sub).
Proof.
  unfold served, select_recv.
  destruct (buf (msgs sub)); simpl; [|done].
  destruct (closed (msgs sub)); done.
Qed.

Lemma NewServer_outboxes_bounded : outboxes_bounded NewServer.
Proof. intros x sub Hsub. simpl in Hsub. by rewrite lookup_empty in Hsub. Qed.

Lemma publishMsg_body_bounded msg s k s' :
  outboxes_bounded s → publishMsg_body msg s k = Ok s' → outboxes_bounded s'.
Proof.
  intros Hb H. apply publishMsg_body_inv in H as (subk & Hk & _ & ->).
  destruct (Hb k subk Hk) as [Hlen Hcap].
  intros x sub. case_bool_decide as Hroom; simpl;
    (destruct (decide (k = x)) as [->|Hne];
      [rewrite lookup_insert_eq; intros [= <-]; simpl
      |rewrite lookup_insert_ne by done; apply Hb]).
  - rewrite length_app. simpl. unfold has_room in Hroom. split; [lia|done].
  - done.
Qed.

Lemma publishMsg_range_bounded msg keys : ∀ s s',
  outboxes_bounded s → publishMsg_range msg keys s = Ok s' →
  outboxes_bounded s'.
Proof.
  induction keys as [|k keys IH]; intros s s' Hb H; simpl in H.
  - by injection H as <-.
  - destruct (publishMsg_body msg s k) as [s1|] eqn:Hk; simpl in H; [|done].
    eapply IH; [|done]. by eapply publishMsg_body_bounded.
Qed.

Lemma step_outboxes_bounded e s s' :
  outboxes_bounded s → step e s = Ok s' →
  outboxes_bounded s' ∧ subscriberMessageBuffer s' = subscriberMessageBuffer s.
Proof.
  intros Hb Hstep. destruct e as [|y ok|msg]; simpl in Hstep.
  - injection Hstep as <-. split; [|done]. intros x sub. simpl.
    destruct (decide (fresh (dom (objects s)) = x)) as [->|Hne].
    + rewrite lookup_insert_eq. intros [= <-]. simpl. split; [lia|done].
    + rewrite lookup_insert_ne by done. apply Hb.
  - destruct (websocketHandler_step ok y s) as [[c s1]|] eqn:Hw;
      simpl in Hstep; [|done].
    injection Hstep as ->.
    apply websocketHandler_step_inv in Hw
      as (suby & Hy & _ & _ & Hbuf & _ & Ho).
    split; [|done]. destruct (Hb y suby Hy) as [Hlen Hcap].
    intros x sub. rewrite Ho, Hbuf.
    destruct (decide (y = x)) as [->|Hne].
    + rewrite lookup_insert_eq. intros [= <-].
      assert (length (tail (buf (msgs suby))) ≤ cap (msgs suby))%nat
        by (destruct (buf (msgs suby)); simpl in *; lia).
      destruct ok; simpl; by rewrite served_buf, served_cap.
    + rewrite lookup_insert_ne by done. apply Hb.
  - split.
    + by eapply publishMsg_range_bounded.
    + by apply publishMsg_range_frame in Hstep as (? & _).
Qed.

Lemma run_outboxes_bounded t : ∀ s s',
  outboxes_bounded s → run t s = Ok s' →
  outboxes_bounded s' ∧ subscriberMessageBuffer s' = subscriberMessageBuffer s.
Proof.
  induction t as [|e t IH]; intros s s' Hb Hrun; simpl in Hrun.
  - by injection Hrun as <-.
  - destruct (step e s) as [s1|] eqn:Hstep; simpl in Hrun; [|done].
    destruct (step_outboxes_bounded _ _ _ Hb Hstep) as [Hb1 Heq1].
    destruct (IH _ _ Hb1 Hrun) as [Hb' Heq']. split; [done|congruence].
Qed.

(** X3.  Along every execution from NewServer no outbox ever holds more
    than ten payloads: every subscriber has an outbox of capacity 10, the
    configured buffer, and its queue never grows past it, however slowly the
    subscriber drains. *)
Theorem outbox_never_exceeds_capacity
    (t : list Event) (s : Server) (x : loc) (sub : Subscriber) :
  run t NewServer = Ok s → objects s !! x = Some sub →
  (length (buf (msgs sub)) ≤ 10)%nat ∧ cap (msgs sub) = 10%nat ∧
  subscriberMessageBuffer s = 10%nat.
Proof.
  intros Hrun Hsub.
  destruct (run_outboxes_bounded t NewServer s NewServer_outboxes_bounded Hrun)
    as [Hb Heq].
  destruct (Hb x sub Hsub) as [Hlen Hcap]. simpl in Heq.
  rewrite Hcap, Heq in Hlen. by rewrite Hcap, Heq.
Qed.

Lemma outbox_never_exceeds_capacity_witness :
  let t := Connect :: (Publish <$> replicate 25 (payload "p")) in
  ∃ s sub, run t NewServer = Ok s ∧ objects s !! 0%nat = Some sub ∧
    (length (buf (msgs sub)) ≤ 10)%nat ∧ cap (msgs sub) = 10%nat ∧
    subscriberMessageBuffer s = 10%nat.
Proof.
  intros t.
  destruct (run t NewServer) as [s|] eqn:Hrun; [|by vm_compute in Hrun].
  destruct (objects s !! 0%nat) as [sub|] eqn:Hsub.
  - exists s, sub. split; [reflexivity|]. split; [exact Hsub|].
    exact (outbox_never_exceeds_capacity t s 0%nat sub Hrun Hsub).
  - exfalso. vm_compute in Hrun. injection Hrun as <-. by vm_compute in Hsub.
Defined.

Lemma run_app t1 t2 s :
  run (t1 ++ t2) s = (s' ← run t1 s; run t2 s').
Proof.
  revert s. induction t1 as [|e t1 IH]; intros s; simpl; [done|].
  destruct (step e s) as [s1|]; simpl; [apply IH|done].
Qed.

(** Publications that fit are all queued, in order. *)
Lemma publishes_that_fit ps : ∀ s x sub,
  registry_ok s → x ∈ subscribers s → objects s !! x = Some sub →
  (length (buf (msgs sub)) + length ps ≤ cap (msgs sub))%nat →
  ∃ s', run (Publish <$> ps) s = Ok s' ∧ registry_ok s' ∧
    x ∈ subscribers s' ∧
    objects s' !! x =
      Some {| msgs := {| buf := buf (msgs sub) ++ ps; cap := cap (msgs sub);
                         closed := false |};
              conn := conn sub |}.
Proof.
  induction ps as [|p ps IH]; intros s x sub Hok Hx Hsub Hlen; simpl.
  - exists s. split_and!; [done..|]. rewrite app_nil_r, Hsub.
    destruct (Hok x Hx) as (sub' & ? & Hc). simplify_eq.
    destruct sub as [[b c cl] co]. simpl in *. by rewrite Hc.
  - destruct (publishMsg_range_spec p _ s Hok (range_order_elements s))
      as (s1 & Hrun1 & _ & Hin & _).
    unfold publishMsg. rewrite Hrun1. simpl.
    destruct (Hin x sub Hx Hsub) as [Ho Hm].
    assert (has_room (msgs sub)) as Hroom by (unfold has_room; simpl in Hlen; lia).
    unfold delivered in Ho. rewrite bool_decide_eq_true_2 in Ho by done.
    destruct (IH s1 x (set_msgs (enqueue p (msgs sub)) sub))
      as (s' & Hrun & Hok' & Hx' & Hsub').
    { eapply publishMsg_registry_ok; [done|]. by unfold publishMsg. }
    { by apply Hm. }
    { done. }
    { simpl. rewrite length_app. simpl in *. lia. }
    exists s'. split_and!; [done..|]. rewrite Hsub'. simpl.
    by rewrite <- app_assoc.
Qed.

(** X4.  A registered subscriber that does not drain keeps receiving as
    long as the publications fit its outbox, and is evicted by the first
    publication that does not: with [ps] filling the outbox exactly, after
    [ps] it is still a member holding all of [ps] in order, and the next
    publish removes it, closes its outbox and leaves that payload out. *)
Theorem evicted_at_first_payload_that_does_not_fit
    (ps : list Payload) (p : Payload) (s : Server) (x : loc) (sub : Subscriber) :
  registry_ok s → x ∈ subscribers s → objects s !! x = Some sub →
  (length (buf (msgs sub)) + length ps = cap (msgs sub))%nat →
  ∃ s' s'', run (Publish <$> ps) s = Ok s' ∧
    x ∈ subscribers s' ∧
    objects s' !! x =
      Some {| msgs := {| buf := buf (msgs sub) ++ ps; cap := cap (msgs sub);
                         closed := false |};
              conn := conn sub |} ∧
    run (Publish <$> ps ++ [p]) s = Ok s'' ∧
    (x ∉ subscribers s'') ∧
    objects s'' !! x =
      Some {| msgs := {| buf := buf (msgs sub) ++ ps; cap := cap (msgs sub);
                         closed := true |};
              conn := conn sub |}.
Proof.
  intros Hok Hx Hsub Hlen.
  destruct (publishes_that_fit ps s x sub Hok Hx Hsub) as (s' & Hrun & Hok' & Hx' & Hsub');
    [lia|].
  destruct (publishMsg_range_spec p _ s' Hok' (range_order_elements s'))
    as (s'' & Hrun' & _ & Hin & _).
  destruct (Hin x _ Hx' Hsub') as [Ho Hm].
  assert (¬ has_room {| buf := buf (msgs sub) ++ ps; cap := cap (msgs sub);
                        closed := false |}) as Hfull.
  { unfold has_room. simpl. rewrite length_app. lia. }
  exists s', s''. split_and!; [done..| | |].
  - rewrite fmap_app, run_app, Hrun. simpl. unfold publishMsg. by rewrite Hrun'.
  - by rewrite Hm.
  - rewrite Ho. unfold delivered. simpl.
    by rewrite bool_decide_eq_false_2.
Qed.

Lemma evicted_at_first_payload_that_does_not_fit_witness :
  let s := (websocketHandler_enter small_server).2 in
  ∃ s' s'', run (Publish <$> [payload "p1"; payload "p2"]) s = Ok s' ∧
    0%nat ∈ subscribers s' ∧
    objects s' !! 0%nat =
      Some {| msgs := {| buf := [] ++ [payload "p1"; payload "p2"]; cap := 2;
                         closed := false |};
              conn := [] |} ∧
    run (Publish <$> [payload "p1"; payload "p2"] ++ [payload "p3"]) s = Ok s'' ∧
    (0%nat ∉ subscribers s'') ∧
    objects s'' !! 0%nat =
      Some {| msgs := {| buf := [] ++ [payload "p1"; payload "p2"]; cap := 2;
                         closed := true |};
              conn := [] |}.
Proof.
  intros s.
  apply (evicted_at_first_payload_that_does_not_fit
           [payload "p1"; payload "p2"] (payload "p3") s 0%nat
           {| msgs := make_chan 2; conn := [] |}).
  - apply registry_okb_spec. by_evaluation.
  - by_evaluation.
  - by_evaluation.
  - reflexivity.
Defined.

(** * Further properties: isolation and order *)



(** X6.  The result of publishMsg does not depend on the order in which
    the range loop visits the map: any two orders give the same server. *)
Theorem publish_result_is_order_independent
    (msg : Payload) (keys1 keys2 : list loc) (s : Server) :
  registry_ok s → range_order s keys1 → range_order s keys2 →
  publishMsg_range msg keys1 s = publishMsg_range msg keys2 s.
Proof.
  intros Hok H1 H2.
  rewrite (publishMsg_range_any_order msg keys1 s Hok H1).
  by rewrite (publishMsg_range_any_order msg keys2 s Hok H2).
Qed.

Lemma publish_result_is_order_independent_witness :
  let s := (websocketHandler_enter (websocketHandler_enter
             (websocketHandler_enter NewServer).2).2).2 in
  publishMsg_range (payload "p1") [0%nat; 1%nat; 2%nat] s =
  publishMsg_range (payload "p1") [2%nat; 0%nat; 1%nat] s.
Proof.
  intros s.
  apply (publish_result_is_order_independent (payload "p1")
           [0%nat; 1%nat; 2%nat] [2%nat; 0%nat; 1%nat] s).
  - apply registry_okb_spec. by_evaluation.
  - unfold range_order. apply NoDup_Permutation.
    + repeat (apply NoDup_cons; split; [set_solver|]). apply NoDup_nil_2.
    + apply NoDup_elements.
    + intros x. rewrite elem_of_elements.
      replace (subscribers s) with ({[0%nat; 1%nat; 2%nat]} : gset nat)
        by by_evaluation.
      set_solver.
  - unfold range_order. apply NoDup_Permutation.
    + repeat (apply NoDup_cons; split; [set_solver|]). apply NoDup_nil_2.
    + apply NoDup_elements.
    + intros x. rewrite elem_of_elements.
      replace (subscribers s) with ({[0%nat; 1%nat; 2%nat]} : gset nat)
        by by_evaluation.
      set_solver.
Defined.

(** * Further properties: the handler on its own *)

(** With nothing to deliver the loop pings, until a write fails. *)
Lemma websocketHandler_loop_pings n rest : ∀ x s sub,
  objects s !! x = Some sub →
  closed (msgs sub) = false → buf (msgs sub) = [] →
  ∃ s', websocketHandler_loop (replicate n true ++ false :: rest) x s
          = Ok (Return, s') ∧
    subscriberMessageBuffer s' = subscriberMessageBuffer s ∧
    subscribers s' = subscribers s ∖ {[x]} ∧
    objects s' =
      <[x := {| msgs := closed_chan (msgs sub);
                conn := conn sub ++ replicate n PingMessage |}]> (objects s).
Proof.
  induction n as [|n IH]; intros x s sub Hx Hc Hb; simpl.
  - rewrite (websocketHandler_step_failed _ _ _ Hx Hc). simpl.
    eexists. split; [done|]. simpl. split_and!; [done..|].
    unfold served, select_recv. rewrite Hb, Hc. simpl. by rewrite app_nil_r.
  - rewrite (websocketHandler_step_ok _ _ _ Hx). simpl.
    assert (served true sub =
            {| msgs := msgs sub; conn := conn sub ++ [PingMessage] |}) as Hs
      by (unfold served, select_recv; by rewrite Hb, Hc).
    destruct (IH x (set_object x (served true sub) s) (served true sub))
      as (s' & -> & Hbuf & Hm & Ho).
    { simpl. by rewrite lookup_insert_eq. }
    { by rewrite served_closed. }
    { by rewrite served_buf, Hb. }
    exists s'. split_and!; [done..|].
    rewrite Ho. simpl. rewrite insert_insert_eq, Hs. simpl.
    by rewrite <- app_assoc.
Qed.

(** X7.  A connection on which nothing is published: the handler
    allocates a fresh subscriber, sends one ping for every write that
    succeeds, returns at the first write that fails without trying the writes
    after it, and leaves the subscriber out of the membership set with its
    outbox closed; nothing else in the server changes. *)
Theorem idle_connection_pings_until_write_fails
    (n : nat) (rest : list bool) (s : Server) :
  let x := fresh (dom (objects s)) in
  ∃ s', websocketHandler (replicate n true ++ false :: rest) s = Ok (Return, s') ∧
    subscriberMessageBuffer s' = subscriberMessageBuffer s ∧
    subscribers s' = subscribers s ∖ {[x]} ∧
    objects s !! x = None ∧
    objects s' =
      <[x := {| msgs := closed_chan (make_chan (subscriberMessageBuffer s));
                conn := replicate n PingMessage |}]> (objects s).
Proof.
  intros x. unfold websocketHandler. simpl. fold x.
  destruct (websocketHandler_loop_pings n rest x
              (addSubscriber x
                 (set_object x
                    {| msgs := make_chan (subscriberMessageBuffer s); conn := [] |} s))
              {| msgs := make_chan (subscriberMessageBuffer s); conn := [] |})
    as (s' & -> & Hbuf & Hm & Ho); [by simpl; rewrite lookup_insert_eq|done..|].
  exists s'. simpl in *. split_and!; [done..| | |].
  - rewrite Hm. set_solver.
  - apply not_elem_of_dom. apply is_fresh.
  - rewrite Ho. by rewrite insert_insert_eq.
Qed.

(** X8.  Writes that succeed deliver what waits in the outbox oldest
    first: after [k] iterations, [k] at most the length of the queue, the
    [k] oldest payloads are on the connection in their order and the rest
    still waits.  This holds of a closed outbox too: the payloads that were
    pending when the subscriber was unregistered are still delivered. *)
Theorem loop_drains_outbox_in_order
    (k : nat) (x : loc) (s : Server) (sub : Subscriber) :
  objects s !! x = Some sub →
  (k ≤ length (buf (msgs sub)))%nat →
  ∃ s', websocketHandler_loop (replicate k true) x s = Ok (Continue, s') ∧
    subscribers s' = subscribers s ∧
    objects s' !! x =
      Some {| msgs := {| buf := drop k (buf (msgs sub)); cap := cap (msgs sub);
                         closed := closed (msgs sub) |};
              conn := conn sub ++ (TextMessage <$> take k (buf (msgs sub))) |}.
Proof.
  revert s sub. induction k as [|k IH]; intros s sub Hx Hk; simpl.
  - exists s. split_and!; [done..|]. rewrite Hx, app_nil_r.
    by destruct sub as [[b c cl] co].
  - rewrite (websocketHandler_step_ok _ _ _ Hx). simpl.
    destruct (buf (msgs sub)) as [|m rest] eqn:Hb; simpl in Hk; [lia|].
    assert (served true sub =
            {| msgs := {| buf := rest; cap := cap (msgs sub);
                          closed := closed (msgs sub) |};
               conn := conn sub ++ [TextMessage m] |}) as Hs
      by (unfold served, select_recv; by rewrite Hb).
    destruct (IH (set_object x (served true sub) s) (served true sub))
      as (s' & -> & Hm & Ho).
    { simpl. by rewrite lookup_insert_eq. }
    { rewrite Hs. simpl. lia. }
    exists s'. split_and!; [done..|].
    rewrite Ho, Hs. simpl. by rewrite <- app_assoc.
Qed.

Lemma loop_drains_outbox_in_order_witness :
  let evicted :=
    {| msgs := {| buf := [payload "p1"; payload "p2"]; cap := 2; closed := true |};
       conn := [PingMessage] |} in
  let s := {| subscriberMessageBuffer := 2; subscribers := ∅;
              objects := {[ 0%nat := evicted ]} |} in
  ∃ s', websocketHandler_loop (replicate 2 true) 0%nat s = Ok (Continue, s') ∧
    subscribers s' = subscribers s ∧
    objects s' !! 0%nat =
      Some {| msgs := {| buf := drop 2 (buf (msgs evicted)); cap := cap (msgs evicted);
                         closed := closed (msgs evicted) |};
              conn := conn evicted
                      ++ (TextMessage <$> take 2 (buf (msgs evicted))) |}.
Proof.
  intros evicted s.
  apply (loop_drains_outbox_in_order 2 0%nat s evicted).
  - by_evaluation.
  - simpl. lia.
Defined.

(** * Further properties: using the registry safely *)

(** A member with a closed outbox stops the range loop, whatever the
    order: the send to it panics, and no other visit can panic before. *)
Lemma publishMsg_range_closed_member msg keys : ∀ s x sub,
  NoDup keys → x ∈ keys →
  objects s !! x = Some sub → closed (msgs sub) = true →
  (∀ y, y ∈ keys → y ≠ x →
     ∃ suby, objects s !! y = Some suby ∧ closed (msgs suby) = false) →
  publishMsg_range msg keys s = Panic SendOnClosedChannel.
Proof.
  induction keys as [|k keys IH]; intros s x sub Hnd Hx Hsub Hc Hopen; simpl.
  - by apply elem_of_nil in Hx.
  - apply NoDup_cons in Hnd as [Hk Hnd].
    destruct (decide (k = x)) as [->|Hne].
    + unfold publishMsg_body, select_send. rewrite Hsub. simpl. by rewrite Hc.
    + destruct (Hopen k) as (subk & Hsubk & Hck); [by left|done|].
      destruct (publishMsg_body msg s k) as [s1|] eqn:Hb;
        [|by rewrite (publishMsg_body_open _ _ _ _ Hsubk Hck) in Hb].
      simpl. apply publishMsg_body_frame in Hb as (_ & _ & _ & Hfr).
      apply elem_of_cons in Hx as [->|Hx]; [done|].
      apply (IH s1 x sub); [done|done| |done|].
      * by destruct (Hfr x ltac:(done)) as [-> _].
      * intros y Hy Hyx.
        assert (y ≠ k) as Hyk by (intros ->; done).
        destruct (Hfr y Hyk) as [-> _]. apply Hopen; [by right|done].
Qed.

(** X9.  A subscriber must not be registered again once it has been
    unregistered: its outbox stays closed, so whatever the other members
    are, the next publish panics on the send to it. *)
Theorem publish_panics_on_reregistered_subscriber
    (x : loc) (s0 s : Server) (msg : Payload) :
  registry_ok s → unregisters x s0 s →
  publishMsg msg (addSubscriber x s) = Panic SendOnClosedChannel.
Proof.
  intros Hok Hun. apply unregisters_closed in Hun as (Hx & sub & Hsub & Hc).
  unfold publishMsg.
  apply (publishMsg_range_closed_member msg _ _ x sub).
  - apply NoDup_elements.
  - apply elem_of_elements. simpl. set_solver.
  - done.
  - done.
  - intros y Hy Hne. apply elem_of_elements in Hy. simpl in *.
    apply Hok. set_solver.
Qed.

Lemma publish_panics_on_reregistered_subscriber_witness :
  let s0 := (websocketHandler_enter (websocketHandler_enter NewServer).2).2 in
  ∃ s, removeSubscriber 0%nat s0 = Ok s ∧
    publishMsg (payload "p1") (addSubscriber 0%nat s) = Panic SendOnClosedChannel.
Proof.
  intros s0.
  destruct (removeSubscriber 0%nat s0) as [s|] eqn:Hrm; [|by vm_compute in Hrm].
  exists s. split; [reflexivity|].
  apply (publish_panics_on_reregistered_subscriber 0%nat s0 s).
  - apply registry_okb_spec.
    vm_compute in Hrm. injection Hrm as <-. vm_compute. reflexivity.
  - apply unregisters_explicitly. exact Hrm.
Defined.

(** X10.  A sequence of register and unregister calls runs without a
    panic when it unregisters no subscriber twice and only subscribers whose
    outbox is open; it closes the outbox of each subscriber it unregisters,
    keeping what the outbox holds, and touches no other subscriber. *)
Theorem unregistering_each_once_is_safe (cs : list Call) (s : Server) :
  NoDup (unregistered_by cs) →
  (∀ x, x ∈ unregistered_by cs →
     ∃ sub, objects s !! x = Some sub ∧ closed (msgs sub) = false) →
  ∃ s', calls cs s = Ok s' ∧
    ∀ x, objects s' !! x =
      if bool_decide (x ∈ unregistered_by cs)
      then (λ sub, set_msgs (closed_chan (msgs sub)) sub) <$> objects s !! x
      else objects s !! x.
Proof.
  unfold unregistered_by.
  revert s. induction cs as [|[y|y] cs IH]; intros s Hnd Hopen; simpl in *.
  - exists s. by split.
  - destruct (IH (addSubscriber y s) Hnd Hopen) as (s' & Hrun & Hobj). eauto.
  - apply NoDup_cons in Hnd as [Hy Hnd].
    destruct (Hopen y) as (sub & Hsub & Hc); [by left|].
    unfold removeSubscriber. simpl. rewrite Hsub. simpl.
    rewrite close_open by done. simpl.
    destruct (IH (set_object y (set_msgs (closed_chan (msgs sub)) sub)
                    (set_subscribers (subscribers s ∖ {[y]}) s)) Hnd)
      as (s' & Hrun & Hobj).
    { intros x Hx. simpl. rewrite lookup_insert_ne by (intros ->; done).
      apply Hopen. by right. }
    exists s'. split; [done|]. intros x. rewrite Hobj. simpl.
    destruct (decide (x = y)) as [->|Hne].
    + rewrite bool_decide_eq_false_2 by done.
      rewrite bool_decide_eq_true_2 by by left.
      by rewrite lookup_insert_eq, Hsub.
    + rewrite lookup_insert_ne by done.
      case_bool_decide as Hin.
      * by rewrite bool_decide_eq_true_2 by by right.
      * rewrite bool_decide_eq_false_2; [done|].
        intros [?|?]%elem_of_cons; done.
Qed.

Lemma unregistering_each_once_is_safe_witness :
  let s := (websocketHandler_enter (websocketHandler_enter NewServer).2).2 in
  let cs := [Unregister 1%nat; Register 5%nat; Unregister 0%nat] in
  ∃ s', calls cs s = Ok s' ∧
    ∀ x, objects s' !! x =
      if bool_decide (x ∈ unregistered_by cs)
      then (λ sub, set_msgs (closed_chan (msgs sub)) sub) <$> objects s !! x
      else objects s !! x.
Proof.
  intros s cs.
  apply (unregistering_each_once_is_safe cs s).
  - unfold unregistered_by. simpl. repeat (apply NoDup_cons; split; [set_solver|]). apply NoDup_nil_2.
  - intros x Hx. unfold unregistered_by in Hx. simpl in Hx.
    assert (x = 1%nat ∨ x = 0%nat) as [->| ->] by set_solver;
      eexists; (split; [by_evaluation|reflexivity]).
Defined.

(** * Further properties: package handlers *)

(** X11.  The collectors never panic on sources that report an error,
    and GetCPUInfo never panics at all.  GetSystemInfo and GetDiskInfo panic
    in one situation only, with a nil dereference: every source they consult
    returned a nil error, and one of them returned a nil value with it. *)
Theorem collectors_panic_only_on_nil_without_error
    (os : string)
    (VM : option mem.VirtualMemoryStat * option error)
    (HI : option host.InfoStat * option error)
    (DU : option disk.UsageStat * option error)
    (CI : list cpu.InfoStat * option error)
    (CP : list float * option error)
    (p : PanicKind) :
  (handlers.GetSystemInfo os VM HI = Panic p ↔
     p = NilDereference ∧ VM.2 = None ∧ HI.2 = None ∧
     (VM.1 = None ∨ HI.1 = None)) ∧
  (handlers.GetDiskInfo DU = Panic p ↔ p = NilDereference ∧ DU = (None, None)) ∧
  handlers.GetCPUInfo CI CP ≠ Panic p.
Proof.
  split_and!.
  - destruct VM as [[vm|] [e1|]], HI as [[hi|] [e2|]]; simpl;
      (split; [intros H; try discriminate H; injection H as <-; tauto
              |intros (-> & ? & ? & [?|?]); simplify_eq; done]).
  - destruct DU as [[du|] [e|]]; simpl;
      (split; [intros H; try discriminate H; injection H as <-; tauto
              |intros [-> ?]; simplify_eq; done]).
  - destruct CI as [[|c ci] [e1|]], CP as [cp [e2|]]; simpl; done.
Qed.

(** X12.  Rounding keeps the reported sizes consistent: when the source's
    free memory is at most its total memory, so is what GetSystemInfo
    reports, and when the source's used and free disk space add up to at
    most the total, so do the three sizes that GetDiskInfo reports. *)
Theorem reported_sizes_stay_consistent
    (os : string) (vm : mem.VirtualMemoryStat) (hi : host.InfoStat)
    (d : disk.UsageStat) :
  handlers.u64 (mem.Total vm) → handlers.u64 (mem.Free vm) →
  handlers.u64 (disk.Total d) → handlers.u64 (disk.Used d) →
  handlers.u64 (disk.Free d) →
  mem.Free vm ≤ mem.Total vm →
  disk.Used d + disk.Free d ≤ disk.Total d →
  ∃ si di,
    handlers.GetSystemInfo os (Some vm, None) (Some hi, None) = Ok (Some si, None) ∧
    handlers.GetDiskInfo (Some d, None) = Ok (Some di, None) ∧
    handlers.SystemInfo.FreeMem si ≤ handlers.SystemInfo.TotalMem si ∧
    handlers.DiskInfo.Used di + handlers.DiskInfo.Free di
      ≤ handlers.DiskInfo.Total di.
Proof.
  intros Ht Hf Hdt Hdu Hdf Hmem Hdisk.
  eexists _, _. split; [reflexivity|]. split; [reflexivity|]. simpl.
  rewrite handlers_facts.megabyteDiv_eq, handlers_facts.gigabyteDiv_eq.
  pose proof (handlers_facts.div64_floor _ (2 ^ 20) Ht eq_refl).
  pose proof (handlers_facts.div64_floor _ (2 ^ 20) Hf eq_refl).
  pose proof (handlers_facts.div64_floor _ (2 ^ 30) Hdt eq_refl).
  pose proof (handlers_facts.div64_floor _ (2 ^ 30) Hdu eq_refl).
  pose proof (handlers_facts.div64_floor _ (2 ^ 30) Hdf eq_refl).
  split; lia.
Qed.

Lemma reported_sizes_stay_consistent_witness :
  ∃ si di,
    handlers.GetSystemInfo "linux"
      (Some (mem.mkVirtualMemoryStat 8589934591 1048575 50%float), None)
      (Some (host.mkInfoStat "ubuntu" "box" 321), None) = Ok (Some si, None) ∧
    handlers.GetDiskInfo
      (Some (disk.mkUsageStat 5368709120 1073741823 4294967297 20%float), None)
      = Ok (Some di, None) ∧
    handlers.SystemInfo.FreeMem si ≤ handlers.SystemInfo.TotalMem si ∧
    handlers.DiskInfo.Used di + handlers.DiskInfo.Free di
      ≤ handlers.DiskInfo.Total di.
Proof.
  apply (reported_sizes_stay_consistent "linux"
           (mem.mkVirtualMemoryStat 8589934591 1048575 50%float)
           (host.mkInfoStat "ubuntu" "box" 321)
           (disk.mkUsageStat 5368709120 1073741823 4294967297 20%float));
    unfold handlers.u64; simpl; lia.
Defined.

(** X13.  The two units agree: a byte count divided by gigabyteDiv is
    its count of mebibytes, as divided by megabyteDiv, divided by 1024; and
    gigabyteDiv is 1024 times megabyteDiv without overflow. *)
Theorem gigabytes_are_1024_megabytes (a : Z) :
  handlers.u64 a →
  handlers.div64 a handlers.gigabyteDiv =
    handlers.div64 (handlers.div64 a handlers.megabyteDiv) 1024 ∧
  handlers.gigabyteDiv = 1024 * handlers.megabyteDiv.
Proof.
  intros Ha. split; [|reflexivity].
  rewrite handlers_facts.megabyteDiv_eq, handlers_facts.gigabyteDiv_eq.
  pose proof (handlers_facts.div64_floor a (2 ^ 20) Ha eq_refl) as Hfl.
  rewrite (handlers_facts.div64_small a (2 ^ 30)) by done.
  rewrite (handlers_facts.div64_small a (2 ^ 20)) in * by done.
  rewrite handlers_facts.div64_small; [|unfold handlers.u64 in *; lia|lia].
  rewrite Z.div_div by lia. done.
Qed.

Lemma gigabytes_are_1024_megabytes_witness :
  handlers.div64 5368709119 handlers.gigabyteDiv =
    handlers.div64 (handlers.div64 5368709119 handlers.megabyteDiv) 1024 ∧
  handlers.gigabyteDiv = 1024 * handlers.megabyteDiv.
Proof.
  apply (gigabytes_are_1024_megabytes 5368709119).
  unfold handlers.u64. lia.
Defined.

(** * Further properties: the publisher on the registry *)

(** One tick of the publisher against the registry itself. *)
Lemma tick_on_registry
    (SystemData : string → string → string → Z → Z → Z → float → Component)
    (DiskData : Z → Z → Z → float → Component)
    (CPUData : string → string → float → list float → Component)
    (StatusUpdate : string → Component) (io : Tick) (s : Server) :
  tick_sources_ok io →
  startDataPublisher_tick publishMsg SystemData DiskData CPUData StatusUpdate io s =
    match expected_publication SystemData DiskData CPUData StatusUpdate io with
    | Some msg => publishMsg msg s
    | None => Ok s
    end.
Proof.
  intros Hio. unfold startDataPublisher_tick. by rewrite cycle_expected.
Qed.

(** X14.  One tick of the publisher on the registry, end to end: when a
    collection or render step fails the server is left exactly as it was;
    when all succeed every member with room has the rendered payload at the
    end of its outbox, every member without room is evicted, and no other
    subscriber is touched.  Either way the tick ends without a panic. *)
Theorem tick_reaches_every_member_or_nobody
    (SystemData : string → string → string → Z → Z → Z → float → Component)
    (DiskData : Z → Z → Z → float → Component)
    (CPUData : string → string → float → list float → Component)
    (StatusUpdate : string → Component) (io : Tick) (s : Server) :
  tick_sources_ok io → registry_ok s →
  ∃ s',
    startDataPublisher_tick publishMsg SystemData DiskData CPUData StatusUpdate io s
      = Ok s' ∧
    registry_ok s' ∧
    match expected_publication SystemData DiskData CPUData StatusUpdate io with
    | None => s' = s
    | Some msg =>
      (∀ x sub, x ∈ subscribers s → objects s !! x = Some sub →
         objects s' !! x = Some (delivered msg sub) ∧
         (x ∈ subscribers s' ↔ has_room (msgs sub))) ∧
      (∀ x, x ∉ subscribers s →
         (x ∉ subscribers s') ∧ objects s' !! x = objects s !! x)
    end.
Proof.
  intros Hio Hok. rewrite tick_on_registry by done.
  destruct (expected_publication _ _ _ _ io) as [msg|]; [|by exists s].
  destruct (publishMsg_range_spec msg _ s Hok (range_order_elements s))
    as (s' & Hrun & _ & Hin & Hout).
  exists s'. split_and!; [done| |done..].
  by apply (publishMsg_registry_ok msg s).
Qed.

Lemma tick_reaches_every_member_or_nobody_witness :
  let s := (websocketHandler_enter NewServer).2 in
  (∃ s', startDataPublisher_tick publishMsg plain_SystemData plain_DiskData
           plain_CPUData plain_StatusUpdate good_tick s = Ok s' ∧
         ∃ sub, objects s' !! 0%nat = Some sub ∧ length (buf (msgs sub)) = 1%nat) ∧
  startDataPublisher_tick publishMsg plain_SystemData plain_DiskData
    plain_CPUData plain_StatusUpdate disk_failure_tick s = Ok s.
Proof.
  intros s. split.
  - destruct (tick_reaches_every_member_or_nobody plain_SystemData plain_DiskData
                plain_CPUData plain_StatusUpdate good_tick s)
      as (s' & Hrun & _ & Hexp).
    + sources_ok.
    + apply registry_okb_spec. by_evaluation.
    + exists s'. split; [exact Hrun|].
      destruct (expected_publication plain_SystemData plain_DiskData
                  plain_CPUData plain_StatusUpdate good_tick) as [msg|] eqn:He;
        [|by vm_compute in He].
      destruct Hexp as [Hin _].
      destruct (Hin 0%nat {| msgs := make_chan 10; conn := [] |})
        as [Ho _]; [by_evaluation|by_evaluation|].
      eexists. split; [exact Ho|]. reflexivity.
  - destruct (tick_reaches_every_member_or_nobody plain_SystemData plain_DiskData
                plain_CPUData plain_StatusUpdate disk_failure_tick s)
      as (s' & Hrun & _ & Hexp).
    + sources_ok.
    + apply registry_okb_spec. by_evaluation.
    + rewrite Hrun. f_equal.
      destruct (expected_publication plain_SystemData plain_DiskData
                  plain_CPUData plain_StatusUpdate disk_failure_tick) as [msg|] eqn:He;
        [by vm_compute in He|done].
Defined.

(** X15.  The publisher loop on the registry never panics, whatever the
    ticks bring, and it never registers or allocates a subscriber: after any
    number of ticks the invariant of the registry holds, the members are
    among those it started with, and the same subscribers are allocated. *)
Theorem publisher_never_panics_nor_registers
    (SystemData : string → string → string → Z → Z → Z → float → Component)
    (DiskData : Z → Z → Z → float → Component)
    (CPUData : string → string → float → list float → Component)
    (StatusUpdate : string → Component) (ticks : list Tick) (s : Server) :
  Forall tick_sources_ok ticks → registry_ok s →
  ∃ s',
    startDataPublisher publishMsg SystemData DiskData CPUData StatusUpdate ticks s
      = Ok s' ∧
    registry_ok s' ∧
    subscribers s' ⊆ subscribers s ∧
    dom (objects s') = dom (objects s) ∧
    subscriberMessageBuffer s' = subscriberMessageBuffer s.
Proof.
  intros Hticks. revert s.
  induction Hticks as [|io ticks Hio _ IH]; intros s Hok; simpl.
  - by exists s.
  - rewrite tick_on_registry by done.
    destruct (expected_publication _ _ _ _ io) as [msg|]; simpl; [|by apply IH].
    destruct (publishMsg_range_spec msg _ s Hok (range_order_elements s))
      as (s1 & Hrun1 & _).
    pose proof (publishMsg_registry_ok msg s s1 Hok Hrun1) as Hok1.
    unfold publishMsg. rewrite Hrun1. simpl.
    apply publishMsg_range_frame in Hrun1 as (Hb1 & Hd1 & Hs1 & _).
    destruct (IH s1 Hok1) as (s' & Hrun & Hok' & Hs' & Hd' & Hb').
    exists s'. split_and!; [done|done|set_solver|congruence|congruence].
Qed.

Lemma publisher_never_panics_nor_registers_witness :
  let s := (websocketHandler_enter small_server).2 in
  ∃ s',
    startDataPublisher publishMsg plain_SystemData plain_DiskData plain_CPUData
      plain_StatusUpdate
      [good_tick; disk_failure_tick; good_tick; good_tick] s = Ok s' ∧
    registry_ok s' ∧
    subscribers s' ⊆ subscribers s ∧
    dom (objects s') = dom (objects s) ∧
    subscriberMessageBuffer s' = subscriberMessageBuffer s.
Proof.
  intros s.
  apply (publisher_never_panics_nor_registers plain_SystemData plain_DiskData
           plain_CPUData plain_StatusUpdate
           [good_tick; disk_failure_tick; good_tick; good_tick] s).
  - repeat (apply Forall_cons; split; [sources_ok|]). by apply Forall_nil.
  - apply registry_okb_spec. by_evaluation.
Defined.

Lemma length_list_byte_of_string (s : string) :
  length (String.list_byte_of_string s) = String.length s.
Proof.
  unfold String.list_byte_of_string. rewrite length_map.
  induction s as [|a s IH]; simpl; [done|]. by rewrite IH.
Qed.

Lemma length_string_app (s1 s2 : string) :
  String.length (s1 +:+ s2) = (String.length s1 + String.length s2)%nat.
Proof. induction s1 as [|a s1 IH]; simpl; [done|]. by rewrite IH. Qed.

(** The wrappers of the format string take 212 bytes. *)
Lemma length_Sprintf_msg (status system cpu disk : string) :
  length (String.list_byte_of_string (Sprintf_msg status system cpu disk)) =
  (212 + String.length status + String.length system
   + String.length cpu + String.length disk)%nat.
Proof.
  rewrite length_list_byte_of_string. unfold Sprintf_msg, oob.
  rewrite !length_string_app. simpl. lia.
Qed.

(** X16.  Every payload that the publisher hands to publishMsg has at
    least 212 bytes, the four wrappers of the format string around the
    rendered fragments; in particular it is never empty, unlike the text
    messages that the write loop sends from a closed outbox. *)
Theorem published_payload_is_never_empty
    (SystemData : string → string → string → Z → Z → Z → float → Component)
    (DiskData : Z → Z → Z → float → Component)
    (CPUData : string → string → float → list float → Component)
    (StatusUpdate : string → Component) (io : Tick) (msg : Payload) :
  expected_publication SystemData DiskData CPUData StatusUpdate io = Some msg →
  (212 ≤ length msg)%nat ∧ msg ≠ [].
Proof.
  intros He.
  apply expected_publication_Some in He
    as (si & di & ci & b1 & b2 & b3 & b4 & _ & _ & _ & _ & _ & _ & _ & ->).
  assert (212 ≤ length (String.list_byte_of_string (Sprintf_msg b4 b1 b3 b2)))%nat
    as Hlen by (rewrite length_Sprintf_msg; lia).
  split; [done|]. intros Hnil. rewrite Hnil in Hlen. simpl in Hlen. lia.
Qed.

Lemma published_payload_is_never_empty_witness :
  ∃ msg,
    expected_publication plain_SystemData plain_DiskData plain_CPUData
      plain_StatusUpdate good_tick = Some msg ∧
    (212 ≤ length msg)%nat ∧ msg ≠ [].
Proof.
  destruct (expected_publication plain_SystemData plain_DiskData plain_CPUData
              plain_StatusUpdate good_tick) as [msg|] eqn:He;
    [|by vm_compute in He].
  exists msg. split; [reflexivity|].
  exact (published_payload_is_never_empty plain_SystemData plain_DiskData
           plain_CPUData plain_StatusUpdate good_tick msg He).
Defined.
